(** * K-Medians centroid update and fit loop (heat/cluster/kmedians.py)

    A shallow embedding of [KMedians._update_centroids] and [KMedians.fit].
    Array entries are exact rationals ([Q]); a distributed array is its global
    content together with the row counts of the ranks; Python objects that the
    code copies or writes in place live in an explicit store, and the methods
    run in a state-and-exception monad over that store, the state of
    [ht.random] and the attributes of [self]. *)

From Stdlib Require Import ZArith QArith Qabs Qpower Lqa String.
From stdpp Require Import base list.

Local Open Scope Z_scope.

(** ** Entries, rows and matrices *)

Abbreviation row := (list Q).
Abbreviation matrix := (list (list Q)).

(** Python's [l[idx]] for an integer index, negative indices counting from
    the end; [None] stands for IndexError. *)
Definition py_index {A} (l : list A) (idx : Z) : option A :=
  let n := Z.of_nat (length l) in
  if (0 <=? idx) && (idx <? n) then l !! Z.to_nat idx
  else if (- n <=? idx) && (idx <? 0) then l !! Z.to_nat (n + idx)
  else None.

(** [(matching_centroids == i).astype(ht.int64)] *)
Definition selection (matching_centroids : list Z) (i : Z) : list Z :=
  map (fun c => if c =? i then 1 else 0) matching_centroids.

(** [X * selection]: every row of [X] times the 0/1 entry of its own line. *)
Definition scale_row (r : row) (s : Z) : row := map (fun x => (x * inject_Z s)%Q) r.
Definition mul_rows (X : matrix) (sel : list Z) : matrix := zip_with scale_row X sel.

(** [a.abs().sum(axis=1)] on one row. *)
Definition abs_sum (r : row) : Q := foldr Qplus 0%Q (map Qabs r).

(** [(assigned_points.abs()).sum(axis=1) != 0] *)
Definition nonzero_rows (A : matrix) : list bool :=
  map (fun r => negb (Qeq_bool (abs_sum r) 0)) A.

(** [A[mask]]: boolean-mask indexing of the rows. *)
Fixpoint bool_index (A : matrix) (mask : list bool) : matrix :=
  match A, mask with
  | r :: A', b :: mask' => if b then r :: bool_index A' mask' else bool_index A' mask'
  | _, _ => []
  end.

(** The rows that survive the masking of cluster [i] (lines 53-58); the
    global content of [clean]. *)
Definition clean_rows (X : matrix) (matching_centroids : list Z) (i : Z) : matrix :=
  let selection := selection matching_centroids i in
  let assigned_points := mul_rows X selection in
  let rows := nonzero_rows assigned_points in
  bool_index assigned_points rows.

(** ** The median reducer *)

Fixpoint insert_sorted (x : Q) (l : list Q) : list Q :=
  match l with
  | [] => [x]
  | y :: l' => if Qle_bool x y then x :: l else y :: insert_sorted x l'
  end.

Definition sort_Q (l : list Q) : list Q := foldr insert_sorted [] l.

(** Modelled from the spec: [ht.median] is not part of the sources; the median
    of a column is the middle entry of the sorted column, and the mean of the two
    middle entries when their number is even. *)
Definition median1 (l : list Q) : Q :=
  let s := sort_Q l in
  let n := length s in
  if Nat.odd n then nth (n / 2)%nat s 0%Q
  else ((nth (n / 2 - 1)%nat s 0 + nth (n / 2)%nat s 0) / 2)%Q.

Definition column (A : matrix) (j : nat) : list Q := map (fun r => nth j r 0%Q) A.

(** [ht.median(clean, axis=0, keepdim=True)]: the single row of the 1 x D result. *)
Definition median_axis0 (D : nat) (A : matrix) : row :=
  map (fun j => median1 (column A j)) (seq 0 D).

(** [((A - B) ** 2).sum()] *)
Definition sub_matrix (A B : matrix) : matrix := zip_with (zip_with Qminus) A B.
Definition pow2_matrix (A : matrix) : matrix := map (map (fun x => (x ^ 2)%Q)) A.
Definition sum_all (A : matrix) : Q := foldr Qplus 0%Q (concat A).
Definition sq_diff_sum (A B : matrix) : Q := sum_all (pow2_matrix (sub_matrix A B)).

(** ** Distributed arrays and the object store *)

(** A [DNDarray]: the global content, the number of columns ([shape[1]], kept
    apart because the array may have no row), the split axis and, for an array
    split along the rows, how many consecutive rows each rank holds. The data
    of this module is split along the rows or not at all: a split array is
    read as split along axis 0. *)
Record DNDarray := mkDND {
  split : option nat;
  shape1 : nat;
  garray : matrix;
  lshape_map : list nat
}.

Definition shape0 (a : DNDarray) : nat := length (garray a).

(** The table of first global row indices that belongs to row counts. *)
Fixpoint displs_from (start : Z) (counts : list nat) : list Z :=
  match counts with
  | [] => []
  | c :: counts' => start :: displs_from (start + Z.of_nat c) counts'
  end.

Definition sum_counts (counts : list nat) : nat := foldr Nat.add 0%nat counts.

(** The part of a global list that a rank holds under given row counts. *)
Definition local_part {A} (counts : list nat) (rank : nat) (l : list A) : list A :=
  take (default 0%nat (counts !! rank)) (drop (sum_counts (take rank counts)) l).

(** The local array [a.lloc] of a rank: the whole content of a replicated
    array, the rank's own consecutive rows otherwise. *)
Definition lloc (a : DNDarray) (rank : nat) : matrix :=
  match split a with
  | None => garray a
  | Some _ => local_part (lshape_map a) rank (garray a)
  end.

Definition loc := nat.

(** What [fit] may be handed: a reference to a [DNDarray] or any other object,
    of which only the type name matters. *)
Inductive pyval :=
| PyDND (l : loc)
| PyOther (type_name : string).

Inductive exn :=
| ValueError_input (type_name : string)  (* line 95 *)
| ValueError_randint                     (* ht.random.randint with low >= high *)
| ValueError_shape                       (* operands or assignment of unequal shapes *)
| IndexError
| AttributeError                         (* an attribute of None *)
| SystemError.                           (* a reference to no object *)

Record KMedians := mkKMedians {
  n_clusters : nat;
  max_iter : Z;
  tol : option Q;
  _cluster_centers : option loc;
  _n_iter : Z;
  _inertia : option Q;
  _labels : option (list Z)
}.

Definition set_cluster_centers (c : loc) (k : KMedians) : KMedians :=
  mkKMedians (n_clusters k) (max_iter k) (tol k) (Some c) (_n_iter k) (_inertia k) (_labels k).
Definition set_n_iter (n : Z) (k : KMedians) : KMedians :=
  mkKMedians (n_clusters k) (max_iter k) (tol k) (_cluster_centers k) n (_inertia k) (_labels k).
Definition set_inertia (q : Q) (k : KMedians) : KMedians :=
  mkKMedians (n_clusters k) (max_iter k) (tol k) (_cluster_centers k) (_n_iter k) (Some q) (_labels k).
Definition set_labels (l : list Z) (k : KMedians) : KMedians :=
  mkKMedians (n_clusters k) (max_iter k) (tol k) (_cluster_centers k) (_n_iter k) (_inertia k) (Some l).

(** The collaborators of the class that are not part of this module. *)
Class Collaborators := {
  rng : Type;                                  (* the state of ht.random *)
  draw : Z -> Z -> rng -> Z * rng;             (* the sampler behind ht.random.randint(low, high) *)
  comm_size : nat;                             (* X.comm.size *)
  MPI_WORLD_size : nat;                        (* ht.MPI_WORLD.size *)
  counts_displs_shape : nat -> list nat * list Z;
                                               (* counts and displs of comm.counts_displs_shape
                                                  for an array of that many rows, axis=0 *)
  initial_centers : KMedians -> DNDarray -> rng -> DNDarray * rng;
                                               (* what _initialize_cluster_centers stores *)
  nearest_center : DNDarray -> DNDarray -> list Z
                                               (* _assign_to_cluster, from X and the centers *)
}.

Section KMediansModel.
Context `{C : Collaborators}.

Record world := mkWorld {
  heap : list DNDarray;
  random_state : rng;
  self : KMedians
}.

Definition with_heap (h : list DNDarray) (w : world) : world :=
  mkWorld h (random_state w) (self w).
Definition with_random (g : rng) (w : world) : world :=
  mkWorld (heap w) g (self w).
Definition with_self (k : KMedians) (w : world) : world :=
  mkWorld (heap w) (random_state w) k.

(** ** The monad of the methods: state and exceptions *)

Inductive outcome (A : Type) :=
| Returns (a : A) (w : world)
| Raises (e : exn) (w : world).
Arguments Returns {A} a w.
Arguments Raises {A} e w.

Definition M (A : Type) : Type := world -> outcome A.

Definition ret {A} (a : A) : M A := fun w => Returns a w.
Definition raise {A} (e : exn) : M A := fun w => Raises e w.
Definition bind {A B} (m : M A) (f : A -> M B) : M B :=
  fun w => match m w with
           | Returns a w' => f a w'
           | Raises e w' => Raises e w'
           end.

Notation "x <- m ;; k" := (bind m (fun x => k))
  (at level 100, m at next level, right associativity).
Notation "m ;;; k" := (bind m (fun _ => k))
  (at level 100, right associativity).

Definition get_self : M KMedians := fun w => Returns (self w) w.
Definition modify_self (f : KMedians -> KMedians) : M unit :=
  fun w => Returns tt (with_self (f (self w)) w).

(** Reading the object behind a reference. *)
Definition deref (l : loc) : M DNDarray :=
  fun w => match heap w !! l with
           | Some a => Returns a w
           | None => Raises SystemError w
           end.

(** A new object: it gets the next free location. *)
Definition alloc (a : DNDarray) : M loc :=
  fun w => Returns (length (heap w)) (with_heap (heap w ++ [a]) w).

(** Overwriting the object at a location in place. *)
Definition store (l : loc) (a : DNDarray) : M unit :=
  fun w => Returns tt (with_heap (<[l := a]> (heap w)) w).

(** [a.copy()] *)
Definition copy (l : loc) : M loc := a <- deref l ;; alloc a.

(** [ht.random.randint(low, high).item()]: an index in [low, high) from the
    sampler. For an empty range, of which neither the module nor its
    specification speaks, the call is taken to raise; no property below rests on
    that branch. *)
Definition randint (low high : Z) : M Z :=
  fun w => if low <? high
           then let '(s, g) := draw low high (random_state w) in Returns s (with_random g w)
           else Raises ValueError_randint w.

(** [for x in l: body(x)] *)
Fixpoint for_each {A} (l : list A) (body : A -> M unit) : M unit :=
  match l with
  | [] => ret tt
  | x :: l' => body x ;;; for_each l' body
  end.

Definition lift_option {A} (e : exn) (o : option A) : M A :=
  match o with Some a => ret a | None => raise e end.

(** ** [KMedians._update_centroids] *)

(** A row assigned to [a[i, :]] must have the width of [a], or one entry,
    which is then repeated. *)
Definition fit_width (ncols : nat) (v : row) : option row :=
  if (length v =? ncols)%nat then Some v
  else match v with
       | [x] => Some (replicate ncols x)
       | _ => None
       end.

Definition with_garray (a : DNDarray) (m : matrix) : DNDarray :=
  mkDND (split a) (shape1 a) m (lshape_map a).

(** [a[i, :] = v]: a row index past the end is an IndexError. *)
Definition setitem_row (l : loc) (i : nat) (v : row) : M unit :=
  a <- deref l ;;
  if (i <? shape0 a)%nat then
    v' <- lift_option ValueError_shape (fit_width (shape1 a) v) ;;
    store l (with_garray a (<[i := v']> (garray a)))
  else raise IndexError.

(** [a[i : i + 1, :] = v] for the row of a 1 x D array [v]: a slice past the
    end is empty and nothing is written. *)
Definition setitem_slice (l : loc) (i : nat) (v : row) : M unit :=
  a <- deref l ;;
  v' <- lift_option ValueError_shape (fit_width (shape1 a) v) ;;
  store l (with_garray a (<[i := v']> (garray a))).

(** The labels a rank holds: partitioned like the rows of [X]. *)
Definition local_labels (x : DNDarray) (matching_centroids : list Z) (rank : nat) : list Z :=
  match split x with
  | None => matching_centroids
  | Some _ => local_part (lshape_map x) rank matching_centroids
  end.

(** Lines 53-57 on one rank. *)
Definition local_clean (x : DNDarray) (matching_centroids : list Z) (i : Z) (rank : nat) : matrix :=
  clean_rows (lloc x rank) (local_labels x matching_centroids rank) i.

(** [ht.array(local, is_split=X.split)]: the array whose parts are the local
    arrays of the ranks. *)
Definition array_is_split (x : DNDarray) (local : nat -> matrix) : DNDarray :=
  match split x with
  | None => mkDND None (shape1 x) (local 0%nat) []
  | Some ax =>
      let parts := map local (seq 0 comm_size) in
      mkDND (Some ax) (shape1 x) (concat parts) (map length parts)
  end.

(** [a.balance_()]: the rows are handed out again by the communicator's counts. *)
Definition balance_ (a : DNDarray) : DNDarray :=
  match split a with
  | None => a
  | Some _ => mkDND (split a) (shape1 a) (garray a) (fst (counts_displs_shape (shape0 a)))
  end.

(** [a.resplit_(axis=None)] *)
Definition resplit_None (a : DNDarray) : DNDarray :=
  mkDND None (shape1 a) (garray a) (lshape_map a).

(** [ht.median(a, axis=0, keepdim=True)] *)
Definition ht_median (a : DNDarray) : row := median_axis0 (shape1 a) (garray a).

(** Lines 65-69: the last rank whose first row index is not past the sample. *)
Fixpoint find_proc (displ : list Z) (sample : Z) (ranks : list nat) (proc : nat) : option nat :=
  match ranks with
  | [] => Some proc
  | p :: ranks' =>
      match displ !! p with
      | None => None
      | Some d => if d >? sample then Some proc else find_proc displ sample ranks' p
      end
  end.

(** Lines 70-73 on one rank: the buffer [xi] the rank enters the broadcast
    with; [None] is an IndexError. *)
Definition xi_local (x : DNDarray) (displ : list Z) (sample : Z) (proc rank : nat) : option row :=
  if (rank =? proc)%nat then
    match displ !! proc with
    | None => None
    | Some d => py_index (lloc x rank) (sample - d)
    end
  else Some (replicate (shape1 x) 0%Q).

(** [comm.Bcast(buf, root)]: every rank leaves with the buffer of the root. *)
Definition Bcast {A} (buf : nat -> A) (root : nat) : A := buf root.

(** The body of the loop over the clusters (lines 52-80). *)
Definition update_cluster (X : loc) (matching_centroids : list Z)
    (new_cluster_centers : loc) (i : nat) : M unit :=
  x <- deref X ;;
  if negb (length matching_centroids =? shape0 x)%nat then raise ValueError_shape else
  let clean := balance_ (array_is_split x (local_clean x matching_centroids (Z.of_nat i))) in
  if (shape0 clean =? 0)%nat then
    let displ := snd (counts_displs_shape (shape0 x)) in
    sample <- randint 0 (Z.of_nat (shape0 x)) ;;
    proc <- lift_option IndexError (find_proc displ sample (seq 0 comm_size) 0%nat) ;;
    xi <- lift_option IndexError (Bcast (xi_local x displ sample proc) proc) ;;
    setitem_row new_cluster_centers i xi
  else
    let clean := if (shape0 clean <=? MPI_WORLD_size)%nat then resplit_None clean else clean in
    let median := ht_median clean in
    setitem_slice new_cluster_centers i median.

Definition _update_centroids (X : loc) (matching_centroids : list Z) : M loc :=
  k <- get_self ;;
  centers <- lift_option AttributeError (_cluster_centers k) ;;
  new_cluster_centers <- copy centers ;;
  for_each (seq 0 (n_clusters k)) (update_cluster X matching_centroids new_cluster_centers) ;;;
  ret new_cluster_centers.

(** ** [KMedians.fit] *)

(** [self._initialize_cluster_centers(X)]: the centers arrive as a new object. *)
Definition _initialize_cluster_centers (X : loc) : M unit :=
  x <- deref X ;;
  k <- get_self ;;
  c <- (fun w => let '(c, g) := initial_centers k x (random_state w) in
                 Returns c (with_random g w)) ;;
  l <- alloc c ;;
  modify_self (set_cluster_centers l).

(** [self._assign_to_cluster(X)] *)
Definition _assign_to_cluster (X : loc) : M (list Z) :=
  x <- deref X ;;
  k <- get_self ;;
  centers <- lift_option AttributeError (_cluster_centers k) ;;
  c <- deref centers ;;
  ret (nearest_center x c).

(** [self.tol is not None and self._inertia <= self.tol] *)
Definition converged (k : KMedians) : bool :=
  match tol k, _inertia k with
  | Some t, Some q => Qle_bool q t
  | _, _ => false
  end.

(** One pass of the loop (lines 103-114); the boolean tells whether the pass
    ends in [break]. *)
Definition fit_pass (X : loc) : M (list Z * bool) :=
  modify_self (fun k => set_n_iter (_n_iter k + 1) k) ;;;
  matching_centroids <- _assign_to_cluster X ;;
  new_cluster_centers <- _update_centroids X matching_centroids ;;
  k <- get_self ;;
  centers <- lift_option AttributeError (_cluster_centers k) ;;
  old <- deref centers ;;
  new <- deref new_cluster_centers ;;
  modify_self (set_inertia (sq_diff_sum (garray old) (garray new))) ;;;
  c <- copy new_cluster_centers ;;
  modify_self (set_cluster_centers c) ;;;
  k <- get_self ;;
  ret (matching_centroids, converged k).

(** [for epoch in range(passes)] with its [break]. *)
Fixpoint fit_loop (passes : nat) (X : loc) (matching_centroids : list Z) : M (list Z) :=
  match passes with
  | O => ret matching_centroids
  | S passes' =>
      r <- fit_pass X ;;
      if snd r then ret (fst r) else fit_loop passes' X (fst r)
  end.

Definition fit (X : pyval) : M unit :=
  match X with
  | PyOther type_name => raise (ValueError_input type_name)
  | PyDND lx =>
      _initialize_cluster_centers lx ;;;
      modify_self (set_n_iter 0) ;;;
      x <- deref lx ;;
      let matching_centroids := replicate (shape0 x) 0 in
      k <- get_self ;;
      matching_centroids <- fit_loop (Z.to_nat (max_iter k)) lx matching_centroids ;;
      modify_self (set_labels matching_centroids)
  end.

End KMediansModel.

Arguments Returns {C A} a w.
Arguments Raises {C A} e w.

(** The world an outcome leaves behind, whether it returns or raises. *)
Definition final_world `{C : Collaborators} {A} (o : outcome A) : world :=
  match o with
  | Returns _ w => w
  | Raises _ w => w
  end.

(** ** The claims' own readings, to compare the code with *)

(** The rows of [X] whose label is [i], in order. *)
Definition assigned_rows (X : matrix) (matching_centroids : list Z) (i : Z) : matrix :=
  map fst (List.filter (fun p => snd p =? i) (zip X matching_centroids)).

(** The assigned rows that are left once every row whose absolute values sum
    to zero is discarded. *)
Definition surviving_rows (X : matrix) (matching_centroids : list Z) (i : Z) : matrix :=
  List.filter (fun r => negb (Qeq_bool (abs_sum r) 0)) (assigned_rows X matching_centroids i).

(** The sum over all K * D entries of the squared difference of two matrices. *)
Definition entry (A : matrix) (i j : nat) : Q := nth j (nth i A []) 0%Q.
Definition inertia_sum (K D : nat) (A B : matrix) : Q :=
  foldr Qplus 0%Q
    (map (fun i => foldr Qplus 0%Q
                     (map (fun j => ((entry A i j - entry B i j) ^ 2)%Q) (seq 0 D)))
         (seq 0 K)).

(** ** A concrete set of collaborators

    Two ranks with the balanced row counts of [comm.chunk], a sampler that
    walks through the range, centers initialised with the first rows of the
    data, and the nearest center under the Manhattan distance. *)

Module TwoRanks.

Definition balanced_counts (size N : nat) : list nat :=
  map (fun r => (N / size + (if r <? N mod size then 1 else 0))%nat) (seq 0 size).

Definition counter_draw (low high : Z) (g : nat) : Z * nat :=
  (low + Z.of_nat g mod (high - low), S g).

Definition manhattan (a b : row) : Q := abs_sum (zip_with Qminus a b).

Fixpoint argmin_from (best : nat) (bestd : Q) (i : nat) (ds : list Q) : nat :=
  match ds with
  | [] => best
  | d :: ds' =>
      if Qle_bool bestd d then argmin_from best bestd (S i) ds'
      else argmin_from i d (S i) ds'
  end.

Definition argmin (ds : list Q) : nat :=
  match ds with
  | [] => 0%nat
  | d :: ds' => argmin_from 0 d 1 ds'
  end.

Definition nearest (x c : DNDarray) : list Z :=
  map (fun r => Z.of_nat (argmin (map (manhattan r) (garray c)))) (garray x).

Definition first_rows (k : KMedians) (x : DNDarray) (g : nat) : DNDarray * nat :=
  (mkDND None (shape1 x) (take (n_clusters k) (garray x)) [], g).

#[export] Instance collaborators : Collaborators := {|
  rng := nat;
  draw := counter_draw;
  comm_size := 2;
  MPI_WORLD_size := 2;
  counts_displs_shape N := (balanced_counts 2 N, displs_from 0 (balanced_counts 2 N));
  initial_centers := first_rows;
  nearest_center := nearest
|}.

End TwoRanks.

(** ** Notions the properties are stated with *)

Section Notions.
Context `{C : Collaborators}.

(** [X] is split along the rows over the ranks of the communicator. *)
Definition partitioned (x : DNDarray) : Prop :=
  split x = Some 0%nat /\ length (lshape_map x) = comm_size /\
  sum_counts (lshape_map x) = shape0 x.

(** The communicator's table of first row indices is the one of [X]'s parts. *)
Definition displs_agree (x : DNDarray) : Prop :=
  snd (counts_displs_shape (shape0 x)) = displs_from 0 (lshape_map x).

(** Every row has [shape[1]] entries. *)
Definition rectangular (a : DNDarray) : Prop :=
  Forall (fun r => length r = shape1 a) (garray a).

(** The sampler keeps to its range. *)
Definition sampler_in_range : Prop :=
  forall low high g, low < high -> low <= fst (draw low high g) < high.

(** The row that the pass over cluster [i] writes, and the state of the
    sampler after it. *)
Definition new_center (x : DNDarray) (mc : list Z) (i : nat) (g : rng) : row * rng :=
  let clean := clean_rows (garray x) mc (Z.of_nat i) in
  if (length clean =? 0)%nat then
    let '(s, g') := draw 0 (Z.of_nat (shape0 x)) g in
    (default [] (garray x !! Z.to_nat s), g')
  else (median_axis0 (shape1 x) clean, g).

Fixpoint centers_after (x : DNDarray) (mc : list Z) (clusters : list nat)
    (m : matrix) (g : rng) : matrix * rng :=
  match clusters with
  | [] => (m, g)
  | i :: clusters' =>
      let '(r, g') := new_center x mc i g in
      centers_after x mc clusters' (<[i := r]> m) g'
  end.

Fixpoint new_centers (x : DNDarray) (mc : list Z) (clusters : list nat) (g : rng)
    : list (list Q) * rng :=
  match clusters with
  | [] => ([], g)
  | i :: clusters' =>
      let '(r, g') := new_center x mc i g in
      let '(rs, g'') := new_centers x mc clusters' g' in
      (r :: rs, g'')
  end.

Definition wp {A} (m : M A) (Q : A -> world -> Prop) (E : exn -> world -> Prop)
    (w : world) : Prop :=
  match m w with
  | Returns a w' => Q a w'
  | Raises e w' => E e w'
  end.

(** The objects of [h0] are where and what they were, and [P] holds of [self]. *)
Definition kept (h0 : list DNDarray) (P : KMedians -> Prop) (w : world) : Prop :=
  h0 `prefix_of` heap w /\ P (self w).

Definition not_input_error (e : exn) : Prop := forall ty, e <> ValueError_input ty.

(** The object at [l] has the property [S]. *)
Definition holds_at (l : loc) (S : DNDarray -> Prop) (w : world) : Prop :=
  exists a, heap w !! l = Some a /\ S a.

(** Properties of an array that writing a row of its width does not spoil. *)
Definition row_closed (S : DNDarray -> Prop) : Prop :=
  forall a i v, S a -> length v = shape1 a -> S (with_garray a (<[i := v]> (garray a))).

(** K rows of D entries each. *)
Definition shaped (K D : nat) (a : DNDarray) : Prop :=
  shape0 a = K /\ shape1 a = D /\ rectangular a.

(** The centers of [self], where they are an object, have the property [S]. *)
Definition centers_inv (S : DNDarray -> Prop) (w : world) : Prop :=
  forall lc c, _cluster_centers (self w) = Some lc -> heap w !! lc = Some c -> S c.

(** The parameters of the estimator are those of [k]. *)
Definition same_parameters (k k' : KMedians) : Prop :=
  n_clusters k' = n_clusters k /\ max_iter k' = max_iter k /\ tol k' = tol k.

(** [n] passes one after the other, without the test for convergence. *)
Fixpoint run_passes (n : nat) (X : loc) (mc : list Z) : M (list Z) :=
  match n with
  | O => ret mc
  | S n' => bind (fit_pass X) (fun r => run_passes n' X (fst r))
  end.

(** The world in which [fit] enters its loop: the initial centers are a new
    object, the sampler is where the initialisation has left it, and the
    counter of passes is zero. *)
Definition loop_entry (x : DNDarray) (w : world) : world :=
  mkWorld (heap w ++ [fst (initial_centers (self w) x (random_state w))])
          (snd (initial_centers (self w) x (random_state w)))
          (set_n_iter 0 (set_cluster_centers (length (heap w)) (self w))).


End Notions.

(** ** A concrete run

    Four rows of one entry, two on each of two ranks; the first row is the
    zero vector. *)

Module Fixture.
Import TwoRanks.


Definition X : DNDarray :=
  mkDND (Some 0%nat) 1 [[0%Q]; [5%Q]; [7%Q]; [9%Q]] [2%nat; 2%nat].

Definition centers : DNDarray := mkDND None 1 [[1%Q]; [2%Q]] [].

Definition estimator : KMedians :=
  mkKMedians 2 3 (Some (1 # 10000)%Q) (Some 1%nat) 0 None None.

(** The data at location 0, the centers at location 1, the sampler about to
    draw 1. *)
Definition w : world := mkWorld [X; centers] 1%nat estimator.

(** The same, the sampler about to draw 7 mod N. *)
Definition w_later : world := mkWorld [X; centers] 7%nat estimator.

(** Before [fit]: only the data in the store, no centers yet. *)
Definition w_fresh : world :=
  mkWorld [X] 1%nat (mkKMedians 2 3 (Some (1 # 10000)%Q) None 0 None None).

(** The same with [max_iter] 0. *)
Definition w_no_pass : world :=
  mkWorld [X] 1%nat (mkKMedians 2 0 (Some (1 # 10000)%Q) None 0 None None).

(** Every row in cluster 1: cluster 0 is empty. *)
Definition all_in_1 : list Z := [1; 1; 1; 1].

(** What the assignment gives for these centers: the zero row alone in
    cluster 0. *)
Definition zero_row_alone : list Z := [0; 1; 1; 1].

(** Two rows in each cluster. *)
Definition two_and_two : list Z := [0; 0; 1; 1].

End Fixture.

(** ** Further notions and runs *)

(** The absolute value and the sum of the absolute values of a row, as the
    words say, apart from what line 56 computes. *)
Definition absolute_value (v : Q) : Q := if Qle_bool 0 v then v else (- v)%Q.
Definition absolute_sum (r : list Q) : Q :=
  fold_left (fun acc v => (acc + absolute_value v)%Q) r 0%Q.

(** The rows whose label is [i], without those whose absolute values sum to
    exactly zero. *)
Definition kept_rows (X : matrix) (matching_centroids : list Z) (i : Z) : matrix :=
  List.filter (fun r => negb (Qeq_bool (absolute_sum r) 0)) (assigned_rows X matching_centroids i).

(** Every entry of the row is zero. *)
Definition all_zero (r : list Q) : bool := forallb (fun v => Qeq_bool v 0) r.

(** How many of the clusters below [K] keep no row. *)
Definition empty_count (X : matrix) (matching_centroids : list Z) (K : nat) : nat :=
  length (List.filter
            (fun i => (length (surviving_rows X matching_centroids (Z.of_nat i)) =? 0)%nat)
            (seq 0 K)).

(** A tolerance is set and the stored inertia is at most the tolerance. *)
Definition inertia_within_tol (k : KMedians) : Prop :=
  exists t q, tol k = Some t /\ _inertia k = Some q /\ (q <= t)%Q.

(** The tolerance is none, or below zero. *)
Definition never_met (t : option Q) : Prop :=
  match t with
  | None => True
  | Some t => (t < 0)%Q
  end.

Section FurtherNotions.
Context `{C : Collaborators}.

(** The data is replicated, or split along the rows over the ranks. *)
Definition laid_out (x : DNDarray) : Prop := split x = None \/ partitioned x.

(** What the pass over cluster [i] makes of the centers [a] and the state
    [g] of the sampler, read off lines 52-80 without the store: the centers
    with row [i] written and the state of the sampler after the pass, or the
    exception and the state of the sampler when it is raised. *)
Definition cluster_result (x a : DNDarray) (mc : list Z) (i : nat) (g : rng)
    : exn * rng + DNDarray * rng :=
  if negb (length mc =? shape0 x)%nat then inl (ValueError_shape, g) else
  let clean := balance_ (array_is_split x (local_clean x mc (Z.of_nat i))) in
  if (shape0 clean =? 0)%nat then
    if 0 <? Z.of_nat (shape0 x) then
      let displ := snd (counts_displs_shape (shape0 x)) in
      let sample := fst (draw 0 (Z.of_nat (shape0 x)) g) in
      let g' := snd (draw 0 (Z.of_nat (shape0 x)) g) in
      match find_proc displ sample (seq 0 comm_size) 0%nat with
      | None => inl (IndexError, g')
      | Some proc =>
          match Bcast (xi_local x displ sample proc) proc with
          | None => inl (IndexError, g')
          | Some xi =>
              if (i <? shape0 a)%nat then
                match fit_width (shape1 a) xi with
                | None => inl (ValueError_shape, g')
                | Some v => inr (with_garray a (<[i := v]> (garray a)), g')
                end
              else inl (IndexError, g')
          end
      end
    else inl (ValueError_randint, g)
  else
    let clean := if (shape0 clean <=? MPI_WORLD_size)%nat then resplit_None clean else clean in
    match fit_width (shape1 a) (ht_median clean) with
    | None => inl (ValueError_shape, g)
    | Some v => inr (with_garray a (<[i := v]> (garray a)), g)
    end.

(** The same for the loop over the clusters; with an exception come the
    centers as far as they are written. *)
Fixpoint clusters_result (x a : DNDarray) (mc : list Z) (clusters : list nat) (g : rng)
    : exn * DNDarray * rng + DNDarray * rng :=
  match clusters with
  | [] => inr (a, g)
  | i :: clusters' =>
      match cluster_result x a mc i g with
      | inl (e, g') => inl (e, a, g')
      | inr (a', g') => clusters_result x a' mc clusters' g'
      end
  end.

(** What a run of the update yields: the centers behind the location it
    returns, or the exception it raises. *)
Definition yield (o : outcome loc) : exn + option DNDarray :=
  match o with
  | Returns l w => inr (heap w !! l)
  | Raises e _ => inl e
  end.

(** The state of the sampler after one draw of a row index below [N]. *)
Definition advance (N : nat) (g : rng) : rng := snd (draw 0 (Z.of_nat N) g).

End FurtherNotions.

(** Replicated data, unevenly split data, and centers with a row too many. *)
Module Edge.
Import TwoRanks.

Definition X_replicated : DNDarray :=
  mkDND None 1 [[0%Q]; [5%Q]; [7%Q]; [9%Q]] [].

Definition centers3 : DNDarray := mkDND None 1 [[1%Q]; [2%Q]; [3%Q]] [].

(** Rows whose entries cancel, and a row of zeros. *)
Definition X_cancel : DNDarray :=
  mkDND (Some 0%nat) 2 [[1%Q; (-1)%Q]; [0%Q; 0%Q]; [2%Q; 3%Q]] [2%nat; 1%nat].

(** Replicated data at location 0, centers at location 1, the sampler about
    to draw 2. *)
Definition w_replicated : world :=
  mkWorld [X_replicated; Fixture.centers] 2%nat Fixture.estimator.

(** The rows of [Fixture.X], one on the first rank and three on the second. *)
Definition X_uneven : DNDarray :=
  mkDND (Some 0%nat) 1 [[0%Q]; [5%Q]; [7%Q]; [9%Q]] [1%nat; 3%nat].

Definition w_uneven : world := mkWorld [X_uneven; Fixture.centers] 5%nat Fixture.estimator.

(** The same, the sampler about to draw 2. *)
Definition w_uneven_2 : world := mkWorld [X_uneven; Fixture.centers] 2%nat Fixture.estimator.

(** Centers that the update leaves as they are, and a tolerance of zero. *)
Definition centers_fixed : DNDarray := mkDND None 1 [[5%Q]; [8%Q]] [].

Definition w_fixed : world :=
  mkWorld [Fixture.X; centers_fixed] 1%nat
          (mkKMedians 2 3 (Some 0%Q) (Some 1%nat) 0 None None).

(** Centers of three rows for an estimator of two clusters. *)
Definition w_three : world := mkWorld [Fixture.X; centers3] 1%nat Fixture.estimator.

(** Before [fit], with ten passes allowed: the third leaves the centers as
    they were. *)
Definition w_long : world :=
  mkWorld [Fixture.X] 1%nat (mkKMedians 2 10 (Some (1 # 10000)%Q) None 0 None None).

(** Before [fit], with a tolerance below zero. *)
Definition w_negative_tol : world :=
  mkWorld [Fixture.X] 1%nat (mkKMedians 2 3 (Some (-1)%Q) None 0 None None).

End Edge.

(** * Properties *)

(** ** The masking of one cluster *)

Lemma scale_row_1 (r : row) : scale_row r 1 = r.
Proof.
  unfold scale_row. induction r as [|x r IH]; simpl; [reflexivity|].
  rewrite IH. f_equal. destruct x as [a b]. unfold Qmult, inject_Z. simpl.
  now rewrite Z.mul_1_r, Pos.mul_1_r.
Qed.

Lemma abs_sum_scale_0 (r : row) : (abs_sum (scale_row r 0) == 0)%Q.
Proof.
  unfold abs_sum, scale_row. induction r as [|x r IH]; [reflexivity|].
  cbn [map fold_right]. rewrite IH, Qplus_0_r.
  assert (H : (x * inject_Z 0 == 0)%Q) by (unfold inject_Z; ring).
  rewrite H. reflexivity.
Qed.

Lemma clean_rows_nil_l (mc : list Z) (i : Z) : clean_rows [] mc i = [].
Proof. reflexivity. Qed.

Lemma clean_rows_nil_r (X : matrix) (i : Z) : clean_rows X [] i = [].
Proof. destruct X; reflexivity. Qed.

Lemma clean_rows_cons (r : row) (X : matrix) (c : Z) (mc : list Z) (i : Z) :
  clean_rows (r :: X) (c :: mc) i =
  if (c =? i) && negb (Qeq_bool (abs_sum r) 0)
  then r :: clean_rows X mc i else clean_rows X mc i.
Proof.
  unfold clean_rows, selection, mul_rows, nonzero_rows. simpl.
  destruct (c =? i); simpl.
  - rewrite scale_row_1. destruct (Qeq_bool (abs_sum r) 0); reflexivity.
  - assert (H : Qeq_bool (abs_sum (scale_row r 0)) 0 = true)
      by (apply Qeq_bool_iff, abs_sum_scale_0).
    rewrite H. reflexivity.
Qed.

Lemma clean_rows_surviving (X : matrix) (mc : list Z) (i : Z) :
  clean_rows X mc i = surviving_rows X mc i.
Proof.
  revert mc. induction X as [|r X IH]; intros [|c mc]; try reflexivity.
  rewrite clean_rows_cons, IH. unfold surviving_rows, assigned_rows. simpl.
  destruct (c =? i); simpl; [|reflexivity].
  destruct (Qeq_bool (abs_sum r) 0); reflexivity.
Qed.

Lemma clean_rows_app (X1 X2 : matrix) (mc1 mc2 : list Z) (i : Z) :
  length X1 = length mc1 ->
  clean_rows (X1 ++ X2) (mc1 ++ mc2) i = clean_rows X1 mc1 i ++ clean_rows X2 mc2 i.
Proof.
  revert mc1. induction X1 as [|r X1 IH]; intros [|c mc1] Hlen; simpl in Hlen; try discriminate.
  - reflexivity.
  - simpl. rewrite !clean_rows_cons, IH by congruence.
    destruct ((c =? i) && negb (Qeq_bool (abs_sum r) 0)); reflexivity.
Qed.

(** ** Row counts, parts and first row indices *)

Lemma local_part_cons_0 {A} (c : nat) (counts : list nat) (l : list A) :
  local_part (c :: counts) 0 l = take c l.
Proof. reflexivity. Qed.

Lemma local_part_cons_S {A} (c : nat) (counts : list nat) (rank : nat) (l : list A) :
  local_part (c :: counts) (S rank) l = local_part counts rank (drop c l).
Proof.
  unfold local_part. simpl. rewrite drop_drop. reflexivity.
Qed.

(** The local parts, rank after rank, make up the global list. *)
Lemma concat_local_parts {A} (counts : list nat) (l : list A) :
  sum_counts counts = length l ->
  concat (map (fun rank => local_part counts rank l) (seq 0 (length counts))) = l.
Proof.
  revert l. induction counts as [|c counts IH]; intros l Hsum; simpl in *.
  - symmetry in Hsum. apply length_zero_iff_nil in Hsum. now subst.
  - rewrite local_part_cons_0, <- seq_shift, map_map.
    rewrite (map_ext _ (fun rank => local_part counts rank (drop c l)))
      by (intros rank; apply local_part_cons_S).
    rewrite IH by (rewrite length_drop; lia). apply take_drop.
Qed.

Lemma concat_clean_chunks (counts : list nat) (X : matrix) (mc : list Z) (i : Z) :
  sum_counts counts = length X -> length mc = length X ->
  concat (map (fun rank => clean_rows (local_part counts rank X) (local_part counts rank mc) i)
              (seq 0 (length counts)))
  = clean_rows X mc i.
Proof.
  revert X mc. induction counts as [|c counts IH]; intros X mc Hsum Hmc; simpl in *.
  - symmetry in Hsum. apply length_zero_iff_nil in Hsum. now subst.
  - rewrite !local_part_cons_0.
    rewrite <- seq_shift, map_map.
    rewrite (map_ext _ (fun rank => clean_rows (local_part counts rank (drop c X))
                                               (local_part counts rank (drop c mc)) i))
      by (intros rank; now rewrite 2!local_part_cons_S).
    rewrite IH by (rewrite !length_drop; lia).
    rewrite <- clean_rows_app by (rewrite !length_take; lia).
    now rewrite !take_drop.
Qed.

Lemma sum_counts_take_S (counts : list nat) (p : nat) :
  sum_counts (take (S p) counts) =
  (sum_counts (take p counts) + default 0 (counts !! p))%nat.
Proof.
  revert p. induction counts as [|c counts IH]; intros p;
    [rewrite !take_nil, lookup_nil; reflexivity|].
  destruct p as [|p]; simpl.
  - unfold sum_counts. simpl. lia.
  - unfold sum_counts in *. simpl. specialize (IH p). simpl in IH. rewrite IH. lia.
Qed.

Lemma sum_counts_take_le (counts : list nat) (p : nat) :
  (sum_counts (take p counts) <= sum_counts counts)%nat.
Proof.
  revert p. induction counts as [|c counts IH]; intros p.
  - now rewrite take_nil.
  - destruct p as [|p]; unfold sum_counts in *; simpl; [lia|].
    specialize (IH p). lia.
Qed.

Lemma displs_from_lookup (counts : list nat) (start : Z) (p : nat) :
  (p < length counts)%nat ->
  displs_from start counts !! p = Some (start + Z.of_nat (sum_counts (take p counts))).
Proof.
  revert start p. induction counts as [|c counts IH]; intros start p Hp; simpl in Hp; [lia|].
  destruct p as [|p]; simpl.
  - f_equal. unfold sum_counts. simpl. lia.
  - rewrite IH by lia. f_equal. unfold sum_counts. simpl. lia.
Qed.

(** The search of lines 65-69, started behind a rank whose first row is not
    past the sample, ends at the rank whose rows contain the sample. *)
Lemma find_proc_from (counts : list nat) (s : Z) (n p : nat) :
  (S p + n = length counts)%nat ->
  Z.of_nat (sum_counts (take p counts)) <= s < Z.of_nat (sum_counts counts) ->
  exists q, find_proc (displs_from 0 counts) s (seq (S p) n) p = Some q /\
            (q < length counts)%nat /\
            Z.of_nat (sum_counts (take q counts)) <= s
              < Z.of_nat (sum_counts (take q counts)) + Z.of_nat (default 0%nat (counts !! q)).
Proof.
  revert p. induction n as [|n IH]; intros p Hlen Hs.
  - exists p. simpl. split; [reflexivity|]. split; [lia|].
    pose proof (sum_counts_take_S counts p) as HS.
    rewrite take_ge in HS by lia. lia.
  - simpl. rewrite displs_from_lookup by lia. rewrite Z.add_0_l.
    destruct (Z.gtb_spec (Z.of_nat (sum_counts (take (S p) counts))) s) as [Hgt|Hle].
    + exists p. split; [reflexivity|]. split; [lia|].
      rewrite sum_counts_take_S in Hgt. lia.
    + apply IH; lia.
Qed.

Lemma find_proc_owner (counts : list nat) (s : Z) :
  0 <= s < Z.of_nat (sum_counts counts) ->
  exists q, find_proc (displs_from 0 counts) s (seq 0 (length counts)) 0 = Some q /\
            (q < length counts)%nat /\
            Z.of_nat (sum_counts (take q counts)) <= s
              < Z.of_nat (sum_counts (take q counts)) + Z.of_nat (default 0%nat (counts !! q)).
Proof.
  intros Hs. destruct counts as [|c counts].
  - unfold sum_counts in Hs. simpl in Hs. lia.
  - cbn [length seq find_proc]. rewrite displs_from_lookup by (simpl; lia).
    change (sum_counts (take 0 (c :: counts))) with 0%nat.
    destruct (Z.gtb_spec (0 + Z.of_nat 0) s) as [Hgt|_]; [lia|].
    apply find_proc_from; [reflexivity|].
    change (sum_counts (take 0 (c :: counts))) with 0%nat. lia.
Qed.

(** The row the owner reads at the local index is the row at the global one. *)
Lemma py_index_local_part {A} (counts : list nat) (l : list A) (q : nat) (s : Z) :
  sum_counts counts = length l ->
  Z.of_nat (sum_counts (take q counts)) <= s
    < Z.of_nat (sum_counts (take q counts)) + Z.of_nat (default 0%nat (counts !! q)) ->
  py_index (local_part counts q l) (s - Z.of_nat (sum_counts (take q counts))) = l !! Z.to_nat s.
Proof.
  intros Hsum Hs. unfold py_index, local_part.
  set (d := sum_counts (take q counts)) in *.
  set (c := default 0%nat (counts !! q)) in *.
  assert (Hle : (d + c <= length l)%nat).
  { rewrite <- Hsum. subst d c. rewrite <- sum_counts_take_S. apply sum_counts_take_le. }
  rewrite length_take, length_drop.
  replace (Z.of_nat (c `min` (length l - d))) with (Z.of_nat c) by lia.
  destruct (Z.leb_spec 0 (s - Z.of_nat d)); [|lia].
  destruct (Z.ltb_spec (s - Z.of_nat d) (Z.of_nat c)); [|lia].
  simpl. rewrite lookup_take_lt by lia. rewrite lookup_drop. f_equal. lia.
Qed.

(** ** What one step of the update does *)

Section Update.
Context `{C : Collaborators}.

Notation "x <- m ;; k" := (bind m (fun x => k))
  (at level 100, m at next level, right associativity).

Lemma bind_returns {A B} (m : M A) (f : A -> M B) (w w' : world) (a : A) :
  m w = Returns a w' -> bind m f w = f a w'.
Proof. intros H. unfold bind. now rewrite H. Qed.

Lemma bind_raises {A B} (m : M A) (f : A -> M B) (w w' : world) (e : exn) :
  m w = Raises e w' -> bind m f w = Raises e w'.
Proof. intros H. unfold bind. now rewrite H. Qed.

Lemma deref_returns (l : loc) (a : DNDarray) (w : world) :
  heap w !! l = Some a -> deref l w = Returns a w.
Proof. intros H. unfold deref. now rewrite H. Qed.

Lemma copy_returns (l : loc) (a : DNDarray) (w : world) :
  heap w !! l = Some a ->
  copy l w = Returns (length (heap w)) (with_heap (heap w ++ [a]) w).
Proof.
  intros H. unfold copy. now rewrite (bind_returns _ _ _ _ _ (deref_returns _ _ _ H)).
Qed.

Lemma garray_clean (x : DNDarray) (mc : list Z) (i : Z) :
  partitioned x -> length mc = shape0 x ->
  garray (balance_ (array_is_split x (local_clean x mc i))) = clean_rows (garray x) mc i.
Proof.
  intros (Hax & Hsize & Hsum) Hmc.
  unfold balance_, array_is_split, local_clean, lloc, local_labels. rewrite Hax. simpl.
  rewrite <- Hsize. apply concat_clean_chunks; assumption.
Qed.

Lemma garray_clean_replicated (x : DNDarray) (mc : list Z) (i : Z) :
  split x = None ->
  garray (balance_ (array_is_split x (local_clean x mc i))) = clean_rows (garray x) mc i.
Proof.
  intros Hnone. unfold balance_, array_is_split, local_clean, lloc, local_labels.
  rewrite Hnone. cbn [split garray]. reflexivity.
Qed.

(** The local arrays of a split array, rank after rank, are its global content. *)
Lemma concat_lloc (x : DNDarray) :
  partitioned x -> concat (map (lloc x) (seq 0 comm_size)) = garray x.
Proof.
  intros (Hax & Hsize & Hsum). unfold lloc. rewrite Hax, <- Hsize.
  now apply concat_local_parts.
Qed.

Lemma shape1_clean (x : DNDarray) (mc : list Z) (i : Z) :
  shape1 (balance_ (array_is_split x (local_clean x mc i))) = shape1 x.
Proof.
  unfold balance_, array_is_split. destruct (split x); reflexivity.
Qed.

Lemma length_median_axis0 (D : nat) (A : matrix) : length (median_axis0 D A) = D.
Proof. unfold median_axis0. now rewrite length_map, length_seq. Qed.

Lemma fit_width_same (n : nat) (v : row) : length v = n -> fit_width n v = Some v.
Proof. intros H. unfold fit_width. now rewrite (proj2 (Nat.eqb_eq _ _) H). Qed.

(** The row that reaches every rank through the broadcast is the row of [X]
    at the sampled global index. *)
Lemma broadcast_row (x : DNDarray) (s : Z) :
  partitioned x -> displs_agree x -> 0 <= s < Z.of_nat (shape0 x) ->
  exists proc,
    find_proc (snd (counts_displs_shape (shape0 x))) s (seq 0 comm_size) 0 = Some proc /\
    (proc < comm_size)%nat /\
    Bcast (xi_local x (snd (counts_displs_shape (shape0 x))) s proc) proc
    = garray x !! Z.to_nat s.
Proof.
  intros (Hax & Hsize & Hsum) Hd Hs. rewrite Hd, <- Hsize.
  destruct (find_proc_owner (lshape_map x) s) as (q & Hq & Hlt & Hown); [now rewrite Hsum|].
  exists q. split; [exact Hq|]. split; [exact Hlt|].
  unfold Bcast, xi_local. rewrite Nat.eqb_refl, displs_from_lookup by exact Hlt.
  rewrite Z.add_0_l. unfold lloc. rewrite Hax.
  apply py_index_local_part; assumption.
Qed.

Lemma update_cluster_returns (X ncc : loc) (mc : list Z) (i : nat) (w : world)
    (x a : DNDarray) :
  sampler_in_range ->
  heap w !! X = Some x -> heap w !! ncc = Some a ->
  partitioned x -> displs_agree x -> rectangular x ->
  (0 < shape0 x)%nat -> length mc = shape0 x ->
  (i < shape0 a)%nat -> shape1 a = shape1 x ->
  update_cluster X mc ncc i w =
  Returns tt
    (mkWorld (<[ncc := with_garray a (<[i := fst (new_center x mc i (random_state w))]> (garray a))]>
                (heap w))
             (snd (new_center x mc i (random_state w)))
             (self w)).
Proof.
  intros Hdraw HX Hncc Hpart Hdispl Hrect HN Hmc Hi Hw.
  unfold update_cluster.
  rewrite (bind_returns _ _ _ _ _ (deref_returns _ _ _ HX)).
  rewrite (proj2 (Nat.eqb_eq _ _) Hmc). cbn [negb].
  unfold shape0 at 1. rewrite garray_clean by assumption.
  unfold new_center.
  destruct (length (clean_rows (garray x) mc (Z.of_nat i)) =? 0)%nat eqn:Hempty.
  - unfold randint, bind at 1.
    destruct (Z.ltb_spec 0 (Z.of_nat (shape0 x))) as [_|]; [|lia].
    pose proof (Hdraw 0 (Z.of_nat (shape0 x)) (random_state w) ltac:(lia)) as Hs.
    destruct (draw 0 (Z.of_nat (shape0 x)) (random_state w)) as [s g'] eqn:Hsg.
    cbn [fst snd] in *.
    destruct (broadcast_row x s Hpart Hdispl Hs) as (proc & Hproc & _ & Hxi).
    rewrite Hproc. unfold lift_option at 1, bind at 1, ret at 1.
    rewrite Hxi.
    destruct (lookup_lt_is_Some_2 (garray x) (Z.to_nat s)) as [r Hr];
      [unfold shape0 in Hs; lia|].
    rewrite Hr. unfold lift_option at 1, bind at 1, ret at 1. cbn [default].
    unfold setitem_row.
    rewrite (bind_returns _ _ _ _ _ (deref_returns ncc a (with_random g' w) Hncc)).
    rewrite (proj2 (Nat.ltb_lt _ _) Hi).
    rewrite fit_width_same.
    + reflexivity.
    + rewrite Hw. unfold rectangular in Hrect. rewrite Forall_lookup in Hrect.
      exact (Hrect _ _ Hr).
  - cbn [fst snd]. unfold setitem_slice.
    rewrite (bind_returns _ _ _ _ _ (deref_returns _ _ _ Hncc)).
    unfold ht_median.
    set (clean := balance_ (array_is_split x (local_clean x mc (Z.of_nat i)))).
    assert (Hg : garray (if (shape0 clean <=? MPI_WORLD_size)%nat then resplit_None clean else clean)
                 = clean_rows (garray x) mc (Z.of_nat i)).
    { destruct (shape0 clean <=? MPI_WORLD_size)%nat; simpl; subst clean;
        apply garray_clean; assumption. }
    assert (Hs1 : shape1 (if (shape0 clean <=? MPI_WORLD_size)%nat then resplit_None clean else clean)
                  = shape1 x).
    { destruct (shape0 clean <=? MPI_WORLD_size)%nat; simpl; subst clean; apply shape1_clean. }
    rewrite Hg, Hs1.
    rewrite fit_width_same by (rewrite length_median_axis0; congruence).
    reflexivity.
Qed.

Lemma with_garray_id (a : DNDarray) : with_garray a (garray a) = a.
Proof. now destruct a. Qed.

Lemma centers_after_length (x : DNDarray) (mc : list Z) (clusters : list nat)
    (m : matrix) (g : rng) :
  length (fst (centers_after x mc clusters m g)) = length m.
Proof.
  revert m g. induction clusters as [|i clusters IH]; intros m g; [reflexivity|].
  cbn [centers_after]. destruct (new_center x mc i g) as [r g'].
  now rewrite IH, length_insert.
Qed.

(** The loop over the clusters writes the rows of [new_cluster_centers] one
    after the other and touches nothing else. *)
Lemma for_each_update_returns (X ncc : loc) (mc : list Z) (x : DNDarray)
    (clusters : list nat) (w : world) (a : DNDarray) :
  sampler_in_range ->
  heap w !! X = Some x -> heap w !! ncc = Some a -> X <> ncc ->
  partitioned x -> displs_agree x -> rectangular x ->
  (0 < shape0 x)%nat -> length mc = shape0 x ->
  Forall (fun i => (i < shape0 a)%nat) clusters -> shape1 a = shape1 x ->
  for_each clusters (update_cluster X mc ncc) w =
  Returns tt
    (mkWorld (<[ncc := with_garray a
                         (fst (centers_after x mc clusters (garray a) (random_state w)))]>
                (heap w))
             (snd (centers_after x mc clusters (garray a) (random_state w)))
             (self w)).
Proof.
  intros Hdraw HX Hncc Hne Hpart Hdispl Hrect HN Hmc Hin Hw.
  revert w a HX Hncc Hin Hw.
  induction clusters as [|i clusters IH]; intros w a HX Hncc Hin Hw.
  - simpl. unfold ret. rewrite with_garray_id, list_insert_id by exact Hncc.
    now destruct w.
  - apply Forall_cons in Hin as [Hi Hin].
    cbn [for_each].
    rewrite (bind_returns _ _ _ _ _
               (update_cluster_returns X ncc mc i w x a Hdraw HX Hncc Hpart Hdispl Hrect
                  HN Hmc Hi Hw)).
    cbn [centers_after].
    destruct (new_center x mc i (random_state w)) as [r g'] eqn:Hnew. cbn [fst snd].
    rewrite (IH _ (with_garray a (<[i := r]> (garray a)))).
    + cbn [heap random_state self with_garray garray split shape1 lshape_map].
      now rewrite list_insert_insert_eq.
    + cbn [heap]. now rewrite list_lookup_insert_ne by congruence.
    + cbn [heap]. apply list_lookup_insert_eq. now apply lookup_lt_Some in Hncc.
    + unfold shape0 in *. cbn [with_garray garray]. now rewrite length_insert.
    + exact Hw.
Qed.

(** The whole update returns: the new centers are a new object behind the
    next free location, every object that was there is as it was, and the
    sampler is where the passes over the clusters have left it. *)
Lemma update_centroids_returns (X lc : loc) (mc : list Z) (w : world) (x c : DNDarray) :
  sampler_in_range ->
  heap w !! X = Some x -> _cluster_centers (self w) = Some lc -> heap w !! lc = Some c ->
  partitioned x -> displs_agree x -> rectangular x ->
  (0 < shape0 x)%nat -> length mc = shape0 x ->
  (n_clusters (self w) <= shape0 c)%nat -> shape1 c = shape1 x ->
  _update_centroids X mc w =
  Returns (length (heap w))
    (mkWorld (heap w ++ [with_garray c
                           (fst (centers_after x mc (seq 0 (n_clusters (self w)))
                                   (garray c) (random_state w)))])
             (snd (centers_after x mc (seq 0 (n_clusters (self w))) (garray c) (random_state w)))
             (self w)).
Proof.
  intros Hdraw HX Hlc Hc Hpart Hdispl Hrect HN Hmc HK Hw.
  unfold _update_centroids, get_self. unfold bind at 1. rewrite Hlc.
  unfold lift_option, ret at 1, bind at 1.
  rewrite (bind_returns _ _ _ _ _ (copy_returns _ _ _ Hc)).
  pose proof (lookup_lt_Some _ _ _ HX) as HXlt.
  rewrite (bind_returns _ _ _ _ _
             (for_each_update_returns X (length (heap w)) mc x (seq 0 (n_clusters (self w)))
                (with_heap (heap w ++ [c]) w) c Hdraw
                ltac:(cbn [heap with_heap]; now apply lookup_app_l_Some)
                ltac:(cbn [heap with_heap]; now rewrite lookup_app_r, Nat.sub_diag by lia)
                ltac:(lia) Hpart Hdispl Hrect HN Hmc
                ltac:(apply Forall_forall; intros i Hi; apply elem_of_seq in Hi; lia) Hw)).
  unfold ret. cbn [heap with_heap random_state self]. 
  rewrite insert_app_r_alt, Nat.sub_diag by lia. reflexivity.
Qed.

(** ** The rows the update writes, apart from the matrix they go to *)

Lemma new_centers_length (x : DNDarray) (mc : list Z) (clusters : list nat) (g : rng) :
  length (fst (new_centers x mc clusters g)) = length clusters.
Proof.
  revert g. induction clusters as [|i clusters IH]; intros g; [reflexivity|].
  cbn [new_centers]. destruct (new_center x mc i g) as [r g'].
  specialize (IH g'). destruct (new_centers x mc clusters g') as [rs g''].
  simpl in *. now rewrite IH.
Qed.

Lemma centers_after_seq (x : DNDarray) (mc : list Z) (n j : nat) (m : matrix) (g : rng) :
  (j + n <= length m)%nat ->
  centers_after x mc (seq j n) m g =
  (take j m ++ fst (new_centers x mc (seq j n) g) ++ drop (j + n) m,
   snd (new_centers x mc (seq j n) g)).
Proof.
  revert j m g. induction n as [|n IH]; intros j m g Hlen.
  - simpl. now rewrite Nat.add_0_r, take_drop.
  - cbn [seq centers_after new_centers].
    destruct (new_center x mc j g) as [r g'].
    rewrite IH by (rewrite length_insert; lia).
    destruct (new_centers x mc (seq (S j) n) g') as [rs g'']. cbn [fst snd].
    f_equal.
    rewrite (take_S_r _ j r) by (apply list_lookup_insert_eq; lia).
    rewrite take_insert_ge by lia.
    rewrite drop_insert_lt by lia.
    rewrite <- app_assoc. simpl. repeat f_equal. lia.
Qed.

(** Written over a matrix of exactly [K] rows, the update leaves nothing of it. *)
Lemma centers_after_all (x : DNDarray) (mc : list Z) (m : matrix) (g : rng) :
  centers_after x mc (seq 0 (length m)) m g = new_centers x mc (seq 0 (length m)) g.
Proof.
  rewrite centers_after_seq by lia. simpl.
  rewrite drop_all, app_nil_r. now destruct (new_centers x mc (seq 0 (length m)) g).
Qed.

(** The row of cluster [i] is the one chosen when the sampler was in the state
    the passes over the clusters before [i] had left. *)
Lemma new_centers_lookup (x : DNDarray) (mc : list Z) (clusters : list nat) (g : rng)
    (k i : nat) :
  clusters !! k = Some i ->
  fst (new_centers x mc clusters g) !! k =
  Some (fst (new_center x mc i (snd (new_centers x mc (take k clusters) g)))).
Proof.
  revert g k. induction clusters as [|i0 clusters IH]; intros g k Hk; [discriminate|].
  cbn [new_centers]. destruct k as [|k]; simpl in Hk.
  - injection Hk as ->. rewrite take_0. cbn [new_centers snd].
    destruct (new_center x mc i g) as [r g'].
    now destruct (new_centers x mc clusters g').
  - cbn [take new_centers]. destruct (new_center x mc i0 g) as [r g'].
    specialize (IH g' k Hk).
    destruct (new_centers x mc clusters g') as [rs g''].
    destruct (new_centers x mc (take k clusters) g') as [rs' g3]. exact IH.
Qed.

(** Where no cluster is left without rows the sampler is never asked. *)
Lemma new_centers_no_empty (x : DNDarray) (mc : list Z) (clusters : list nat) (g : rng) :
  Forall (fun i => clean_rows (garray x) mc (Z.of_nat i) <> []) clusters ->
  new_centers x mc clusters g =
  (map (fun i => median_axis0 (shape1 x) (clean_rows (garray x) mc (Z.of_nat i))) clusters, g).
Proof.
  induction 1 as [|i clusters Hi _ IH]; [reflexivity|].
  cbn [new_centers map]. unfold new_center.
  assert (Hne : (length (clean_rows (garray x) mc (Z.of_nat i)) =? 0)%nat = false).
  { apply Nat.eqb_neq. intros H0. now apply length_zero_iff_nil in H0. }
  rewrite Hne. now rewrite IH.
Qed.

(** ** A weakest-precondition calculus for the methods

    [wp m Q E w]: run from [w], [m] either returns a value and a world in [Q]
    or raises an exception and leaves a world in [E]. *)

Lemma wp_ret {A} (a : A) (Q : A -> world -> Prop) E w : Q a w -> wp (ret a) Q E w.
Proof. exact id. Qed.

Lemma wp_raise {A} (e : exn) (Q : A -> world -> Prop) (E : exn -> world -> Prop) w :
  E e w -> wp (raise e) Q E w.
Proof. exact id. Qed.

Lemma wp_bind {A B} (m : M A) (f : A -> M B) Q E w :
  wp m (fun a w' => wp (f a) Q E w') E w -> wp (bind m f) Q E w.
Proof. unfold wp, bind. now destruct (m w). Qed.

Lemma wp_mono {A} (m : M A) (Q Q' : A -> world -> Prop) (E E' : exn -> world -> Prop) w :
  wp m Q E w -> (forall a w', Q a w' -> Q' a w') -> (forall e w', E e w' -> E' e w') ->
  wp m Q' E' w.
Proof. unfold wp. destruct (m w); auto. Qed.

Lemma wp_get_self (Q : KMedians -> world -> Prop) E w : Q (self w) w -> wp get_self Q E w.
Proof. exact id. Qed.

Lemma wp_modify_self (f : KMedians -> KMedians) (Q : unit -> world -> Prop) E w :
  Q tt (with_self (f (self w)) w) -> wp (modify_self f) Q E w.
Proof. exact id. Qed.

Lemma wp_deref (l : loc) (Q : DNDarray -> world -> Prop) (E : exn -> world -> Prop) w :
  (forall a, heap w !! l = Some a -> Q a w) ->
  (heap w !! l = None -> E SystemError w) ->
  wp (deref l) Q E w.
Proof. unfold wp, deref. destruct (heap w !! l); auto. Qed.

Lemma wp_alloc (a : DNDarray) (Q : loc -> world -> Prop) E w :
  Q (length (heap w)) (with_heap (heap w ++ [a]) w) -> wp (alloc a) Q E w.
Proof. exact id. Qed.

Lemma wp_store (l : loc) (a : DNDarray) (Q : unit -> world -> Prop) E w :
  Q tt (with_heap (<[l := a]> (heap w)) w) -> wp (store l a) Q E w.
Proof. exact id. Qed.

Lemma wp_copy (l : loc) (Q : loc -> world -> Prop) (E : exn -> world -> Prop) w :
  (forall a, heap w !! l = Some a -> Q (length (heap w)) (with_heap (heap w ++ [a]) w)) ->
  (heap w !! l = None -> E SystemError w) ->
  wp (copy l) Q E w.
Proof.
  intros HQ HE. unfold copy. apply wp_bind, wp_deref; [|exact HE].
  intros a Ha. apply wp_alloc. auto.
Qed.

Lemma wp_randint (low high : Z) (Q : Z -> world -> Prop) (E : exn -> world -> Prop) w :
  (low < high -> Q (fst (draw low high (random_state w)))
                   (with_random (snd (draw low high (random_state w))) w)) ->
  (high <= low -> E ValueError_randint w) ->
  wp (randint low high) Q E w.
Proof.
  intros HQ HE. unfold wp, randint. destruct (Z.ltb_spec low high); [|auto].
  destruct (draw low high (random_state w)); auto.
Qed.

Lemma wp_lift_option {A} (e : exn) (o : option A) (Q : A -> world -> Prop)
    (E : exn -> world -> Prop) w :
  (forall a, o = Some a -> Q a w) -> (o = None -> E e w) -> wp (lift_option e o) Q E w.
Proof. destruct o; unfold wp; simpl; auto. Qed.

Lemma wp_for_each {A} (l : list A) (body : A -> M unit) (I : world -> Prop)
    (E : exn -> world -> Prop) w :
  I w -> (forall x w', I w' -> wp (body x) (fun _ => I) E w') ->
  wp (for_each l body) (fun _ => I) E w.
Proof.
  intros HI Hbody. revert w HI. induction l as [|x l IH]; intros w HI; [exact HI|].
  cbn [for_each]. apply wp_bind.
  eapply wp_mono; [apply Hbody, HI| |auto]. intros u w' HI'. cbn beta. auto.
Qed.

Lemma fit_width_length (n : nat) (v v' : list Q) :
  fit_width n v = Some v' -> length v' = n.
Proof.
  unfold fit_width. destruct (Nat.eqb_spec (length v) n) as [Heq|_].
  - now intros [= <-].
  - destruct v as [|q [|]]; try discriminate. intros [= <-]. apply length_replicate.
Qed.

Lemma wp_setitem_row (l : loc) (i : nat) (v : list Q) (Q : unit -> world -> Prop)
    (E : exn -> world -> Prop) w :
  (forall a v', heap w !! l = Some a -> (i < shape0 a)%nat -> length v' = shape1 a ->
                Q tt (with_heap (<[l := with_garray a (<[i := v']> (garray a))]> (heap w)) w)) ->
  (forall e, e <> ValueError_randint -> (forall ty, e <> ValueError_input ty) -> E e w) ->
  wp (setitem_row l i v) Q E w.
Proof.
  intros HQ HE. unfold setitem_row. apply wp_bind, wp_deref; [|intros _; now apply HE].
  intros a Ha. destruct (Nat.ltb_spec i (shape0 a)); [|now apply wp_raise, HE].
  apply wp_bind, wp_lift_option; [|intros _; now apply HE].
  intros v' Hv'. apply wp_store, (HQ a v'); auto. eapply fit_width_length, Hv'.
Qed.

Lemma wp_setitem_slice (l : loc) (i : nat) (v : list Q) (Q : unit -> world -> Prop)
    (E : exn -> world -> Prop) w :
  (forall a v', heap w !! l = Some a -> length v' = shape1 a ->
                Q tt (with_heap (<[l := with_garray a (<[i := v']> (garray a))]> (heap w)) w)) ->
  (forall e, e <> ValueError_randint -> (forall ty, e <> ValueError_input ty) -> E e w) ->
  wp (setitem_slice l i v) Q E w.
Proof.
  intros HQ HE. unfold setitem_slice. apply wp_bind, wp_deref; [|intros _; now apply HE].
  intros a Ha. apply wp_bind, wp_lift_option; [|intros _; now apply HE].
  intros v' Hv'. apply wp_store, (HQ a v'); auto. eapply fit_width_length, Hv'.
Qed.

(** ** What the update keeps *)

Lemma row_closed_True : row_closed (fun _ => True).
Proof. intros a i v _ _. exact I. Qed.

Lemma row_closed_shaped (K D : nat) : row_closed (shaped K D).
Proof.
  intros a i v (HK & HD & Hrect) Hv. unfold shaped, shape0, rectangular in *.
  cbn [with_garray garray shape1]. rewrite length_insert.
  split; [exact HK|]. split; [exact HD|].
  apply Forall_insert; assumption.
Qed.

Lemma prefix_insert_ge (h0 h : list DNDarray) (l : loc) (a : DNDarray) :
  h0 `prefix_of` h -> (length h0 <= l)%nat -> h0 `prefix_of` <[l := a]> h.
Proof.
  intros [k ->] Hl. rewrite insert_app_r_alt by exact Hl. now eexists.
Qed.

Lemma prefix_app_r (h0 h k : list DNDarray) : h0 `prefix_of` h -> h0 `prefix_of` h ++ k.
Proof. intros [k0 ->]. rewrite <- app_assoc. now eexists. Qed.

Ltac solve_error :=
  first [ split; [assumption | intros ?; discriminate]
        | intros ?; discriminate ].

Lemma kept_row_written (h0 : list DNDarray) (P : KMedians -> Prop) (S : DNDarray -> Prop)
    (ncc : loc) (i : nat) (a : DNDarray) (v : list Q) (g : rng) (w : world) :
  row_closed S -> (length h0 <= ncc)%nat ->
  kept h0 P w -> holds_at ncc S w -> heap w !! ncc = Some a -> length v = shape1 a ->
  let w' := with_heap (<[ncc := with_garray a (<[i := v]> (garray a))]> (heap w))
                      (with_random g w) in
  kept h0 P w' /\ holds_at ncc S w'.
Proof.
  intros HS Hncc [Hpre HP] (a0 & Ha0 & HSa) Ha Hv. cbn zeta.
  assert (a0 = a) as -> by congruence.
  split; [split|].
  - cbn [heap with_heap]. now apply prefix_insert_ge.
  - exact HP.
  - exists (with_garray a (<[i := v]> (garray a))). split.
    + cbn [heap with_heap]. apply list_lookup_insert_eq. now apply lookup_lt_Some in Ha.
    + now apply HS.
Qed.

Lemma wp_update_cluster (h0 : list DNDarray) (P : KMedians -> Prop) (S : DNDarray -> Prop)
    (X ncc : loc) (mc : list Z) (i : nat) (w : world) :
  row_closed S -> (length h0 <= ncc)%nat -> kept h0 P w -> holds_at ncc S w ->
  wp (update_cluster X mc ncc i)
     (fun _ w' => kept h0 P w' /\ holds_at ncc S w')
     (fun e w' => kept h0 P w' /\ not_input_error e) w.
Proof.
  intros HS Hncc Hkept Hat. unfold update_cluster.
  apply wp_bind, wp_deref; [|intros _; solve_error].
  intros x Hx.
  destruct (negb (length mc =? shape0 x)%nat); [apply wp_raise; solve_error|].
  destruct (shape0 (balance_ (array_is_split x (local_clean x mc (Z.of_nat i)))) =? 0)%nat.
  - apply wp_bind, wp_randint; [|intros _; solve_error].
    intros _. apply wp_bind, wp_lift_option; [|intros _; solve_error].
    intros proc _. apply wp_bind, wp_lift_option; [|intros _; solve_error].
    intros xi _. apply wp_setitem_row.
    + intros a v' Ha _ Hv'.
      exact (kept_row_written h0 P S ncc i a v' _ w HS Hncc Hkept Hat Ha Hv').
    + intros e _ He. split; [exact Hkept|exact He].
  - apply wp_setitem_slice.
    + intros a v' Ha Hv'.
      pose proof (kept_row_written h0 P S ncc i a v' (random_state w) w HS Hncc Hkept Hat Ha Hv')
        as H.
      now destruct w.
    + intros e _ He. split; [exact Hkept|exact He].
Qed.

(** The update, whatever it is run on and however it ends: no object that was
    there is changed, [self] is what it was, no input error is raised, and
    the centers it returns are a new object that has every row-closed property
    of the previous centers. *)
Lemma wp_update_centroids (S : DNDarray -> Prop) (X : loc) (mc : list Z) (w : world) :
  row_closed S ->
  (forall lc c, _cluster_centers (self w) = Some lc -> heap w !! lc = Some c -> S c) ->
  wp (_update_centroids X mc)
     (fun l w' => kept (heap w) (fun k => k = self w) w' /\
                  (length (heap w) <= l)%nat /\ holds_at l S w')
     (fun e w' => kept (heap w) (fun k => k = self w) w' /\ not_input_error e) w.
Proof.
  intros HS Hc. unfold _update_centroids.
  assert (Hkept : kept (heap w) (fun k => k = self w) w) by (split; reflexivity).
  apply wp_bind, wp_get_self.
  apply wp_bind, wp_lift_option; [|intros _; solve_error].
  intros lc Hlc. apply wp_bind, wp_copy; [|intros _; solve_error].
  intros c Hlcc. apply wp_bind.
  eapply wp_mono.
  - apply (wp_for_each _ _
             (fun w' => kept (heap w) (fun k => k = self w) w' /\
                        holds_at (length (heap w)) S w')).
    + split.
      * split; [cbn [heap with_heap]; now apply prefix_app_r|reflexivity].
      * exists c. split; [|eauto].
        cbn [heap with_heap]. now rewrite lookup_app_r, Nat.sub_diag by lia.
    + intros i w' [Hk Hat]. apply wp_update_cluster; auto.
  - intros _ w' [Hk Hat]. apply wp_ret. auto.
  - auto.
Qed.

(** ** What a pass of [fit] keeps *)

Lemma wp_assign_to_cluster (X : loc) (w : world) :
  wp (_assign_to_cluster X) (fun _ w' => w' = w)
     (fun e w' => w' = w /\ not_input_error e) w.
Proof.
  unfold _assign_to_cluster.
  apply wp_bind, wp_deref; [|intros _; split; [reflexivity|solve_error]].
  intros x _. apply wp_bind, wp_get_self.
  apply wp_bind, wp_lift_option; [|intros _; split; [reflexivity|solve_error]].
  intros lc _. apply wp_bind, wp_deref; [|intros _; split; [reflexivity|solve_error]].
  intros c _. now apply wp_ret.
Qed.

Lemma wp_fit_pass (S : DNDarray -> Prop) (X : loc) (w : world) :
  row_closed S -> centers_inv S w ->
  wp (fit_pass X)
     (fun r w' => heap w `prefix_of` heap w' /\ same_parameters (self w) (self w') /\
                  _n_iter (self w') = _n_iter (self w) + 1 /\
                  snd r = converged (self w') /\ centers_inv S w')
     (fun e w' => heap w `prefix_of` heap w' /\ same_parameters (self w) (self w') /\
                  _n_iter (self w') = _n_iter (self w) + 1 /\ not_input_error e) w.
Proof.
  intros HS Hinv. unfold fit_pass.
  apply wp_bind, wp_modify_self.
  set (w1 := with_self (set_n_iter (_n_iter (self w) + 1) (self w)) w).
  assert (Hpar : same_parameters (self w) (self w1)) by (repeat split).
  apply wp_bind.
  eapply wp_mono; [apply wp_assign_to_cluster| |].
  2:{ intros e w' [-> He]. repeat split; try reflexivity. exact He. }
  intros mc w' ->. apply wp_bind.
  eapply wp_mono; [apply (wp_update_centroids S X mc w1 HS)| |].
  { intros lc c Hlc Hc. exact (Hinv lc c Hlc Hc). }
  2:{ intros e w2 [[Hpre Hself] He]. cbn beta in Hself. rewrite Hself.
      repeat split; try reflexivity. exact Hpre. exact He. }
  intros ncc w2 ([Hpre Hself] & Hfresh & (new & Hnew & HSnew)). cbn beta in Hself.
  apply wp_bind, wp_get_self.
  apply wp_bind, wp_lift_option.
  2:{ intros _. rewrite Hself. repeat split; try reflexivity. exact Hpre. solve_error. }
  intros lc Hlc. apply wp_bind, wp_deref.
  2:{ intros _. rewrite Hself. repeat split; try reflexivity. exact Hpre. solve_error. }
  intros old Hold. apply wp_bind, wp_deref.
  2:{ intros _. rewrite Hself. repeat split; try reflexivity. exact Hpre. solve_error. }
  intros new' Hnew'. apply wp_bind, wp_modify_self.
  apply wp_bind, wp_copy.
  2:{ intros _. cbn [heap self with_self]. rewrite Hself.
      repeat split; try reflexivity. exact Hpre. solve_error. }
  intros new'' Hnew''. cbn [heap with_self] in Hnew''.
  apply wp_bind, wp_modify_self. apply wp_bind, wp_get_self. apply wp_ret.
  cbn [heap self with_self with_heap]. rewrite Hself.
  split; [now apply prefix_app_r|]. split; [repeat split|].
  split; [reflexivity|]. split; [reflexivity|].
  intros lc' c'. cbn [_cluster_centers set_cluster_centers self heap with_self with_heap].
  intros [= <-]. rewrite lookup_app_r, Nat.sub_diag by lia. cbn. intros [= <-].
  congruence.
Qed.

(** ** The loop of [fit] *)

Lemma fit_pass_facts (X : loc) (w : world) :
  match fit_pass X w with
  | Returns r w' => _n_iter (self w') = _n_iter (self w) + 1 /\ snd r = converged (self w')
  | Raises _ w' => _n_iter (self w') = _n_iter (self w) + 1
  end.
Proof.
  assert (Hinv : centers_inv (fun _ => True) w) by (intros ? ? ? ?; exact I).
  pose proof (wp_fit_pass (fun _ => True) X w row_closed_True Hinv) as H.
  unfold wp in H. destruct (fit_pass X w).
  - destruct H as (_ & _ & Hiter & Hb & _). now split.
  - now destruct H as (_ & _ & Hiter & _).
Qed.

(** The loop is a number of passes that does not exceed its bound; no pass
    before the last one has met the tolerance, and the loop ends before its bound
    only behind a pass that has met it (or has raised). *)
Lemma fit_loop_passes (N : nat) (X : loc) (mc : list Z) (w : world) :
  exists n, (n <= N)%nat /\
    fit_loop N X mc w = run_passes n X mc w /\
    _n_iter (self (final_world (fit_loop N X mc w))) = _n_iter (self w) + Z.of_nat n /\
    (forall j mc' wj, (1 <= j < n)%nat -> run_passes j X mc w = Returns mc' wj ->
                      converged (self wj) = false) /\
    ((n < N)%nat -> match run_passes n X mc w with
                    | Returns _ w' => converged (self w') = true
                    | Raises _ _ => True
                    end).
Proof.
  revert mc w. induction N as [|N IH]; intros mc w.
  - exists 0%nat. simpl. repeat split; lia.
  - pose proof (fit_pass_facts X w) as Hfacts.
    destruct (fit_pass X w) as [[mc1 b] w1|e w1] eqn:Hpass.
    + destruct Hfacts as [Hiter Hb]. cbn [snd] in Hb.
      destruct b.
      * exists 1%nat. cbn [fit_loop run_passes]. unfold bind. rewrite Hpass. cbn [fst snd].
        unfold ret. cbn [final_world]. repeat split; try lia.
        intros _. now symmetry.
      * destruct (IH mc1 w1) as (n & Hn & Heq & Hcount & Hbefore & Hlast).
        exists (S n). cbn [fit_loop run_passes]. unfold bind at 1 2 3. rewrite Hpass.
        cbn [fst snd]. split; [lia|]. split; [exact Heq|]. split; [lia|]. split.
        -- intros j mc' wj Hj Hrun. destruct j as [|[|j]]; [lia| |].
           ++ cbn [run_passes] in Hrun. unfold bind in Hrun. rewrite Hpass in Hrun.
              cbn in Hrun. injection Hrun as _ <-. now symmetry.
           ++ cbn [run_passes] in Hrun. unfold bind at 1 in Hrun. rewrite Hpass in Hrun.
              cbn [fst] in Hrun. apply (Hbefore (S j) mc' wj); [lia|exact Hrun].
        -- intros Hlt. unfold bind. rewrite Hpass. apply Hlast. lia.
    + exists 1%nat. cbn [fit_loop run_passes]. unfold bind. rewrite Hpass.
      cbn [final_world]. repeat split; try lia.
Qed.

Lemma wp_fit_loop (S : DNDarray -> Prop) (h0 : list DNDarray) (k0 : KMedians)
    (N : nat) (X : loc) (mc : list Z) (w : world) :
  row_closed S ->
  h0 `prefix_of` heap w -> same_parameters k0 (self w) -> centers_inv S w ->
  wp (fit_loop N X mc)
     (fun _ w' => h0 `prefix_of` heap w' /\ same_parameters k0 (self w') /\ centers_inv S w')
     (fun e w' => h0 `prefix_of` heap w' /\ same_parameters k0 (self w') /\ not_input_error e) w.
Proof.
  intros HS. revert mc w. induction N as [|N IH]; intros mc w Hpre Hpar Hinv.
  - apply wp_ret. auto.
  - cbn [fit_loop]. apply wp_bind.
    eapply wp_mono; [apply (wp_fit_pass S X w HS Hinv)| |].
    + intros [mc1 b] w1 (Hpre1 & Hpar1 & _ & _ & Hinv1). cbn [fst snd].
      assert (Hpre' : h0 `prefix_of` heap w1) by (etransitivity; eassumption).
      assert (Hpar' : same_parameters k0 (self w1)).
      { destruct Hpar as (? & ? & ?), Hpar1 as (? & ? & ?). repeat split; congruence. }
      destruct b; [apply wp_ret; auto|]. now apply IH.
    + intros e w1 (Hpre1 & Hpar1 & _ & He).
      split; [etransitivity; eassumption|]. split; [|exact He].
      destruct Hpar as (? & ? & ?), Hpar1 as (? & ? & ?). repeat split; congruence.
Qed.

(** [fit] on a reference to an array, however it ends: every object that was
    there is unchanged, the parameters of the estimator are what they were, and
    no input error is raised. *)
Lemma wp_fit_array (lx : loc) (w : world) :
  wp (fit (PyDND lx))
     (fun _ w' => heap w `prefix_of` heap w' /\ same_parameters (self w) (self w'))
     (fun e w' => heap w `prefix_of` heap w' /\ same_parameters (self w) (self w') /\
                  not_input_error e) w.
Proof.
  cbn [fit]. apply wp_bind. unfold _initialize_cluster_centers.
  apply wp_bind, wp_deref; [|intros _; repeat split; first [reflexivity|solve_error]].
  intros x Hx. apply wp_bind, wp_get_self. apply wp_bind.
  unfold wp at 1. destruct (initial_centers (self w) x (random_state w)) as [c g].
  apply wp_bind, wp_alloc. apply wp_modify_self.
  apply wp_bind, wp_modify_self.
  apply wp_bind, wp_deref;
    [|intros _; cbn; repeat split; first [solve_error|now apply prefix_app_r]].
  intros x' Hx'. apply wp_bind, wp_get_self. apply wp_bind.
  eapply wp_mono.
  - apply (wp_fit_loop (fun _ => True) (heap w) (self w)); [apply row_closed_True| | |].
    + cbn. now apply prefix_app_r.
    + repeat split.
    + intros ? ? ? ?; exact I.
  - intros mc w' (Hpre & Hpar & _). apply wp_modify_self. split; [exact Hpre|exact Hpar].
  - auto.
Qed.

(** ** The claims about the centroid update *)

Lemma abs_sum_all_zero (r : list Q) : Forall (fun v => v == 0)%Q r -> (abs_sum r == 0)%Q.
Proof.
  unfold abs_sum. induction 1 as [|v r Hv _ IH]; [reflexivity|].
  cbn [map fold_right]. rewrite IH, Hv. reflexivity.
Qed.

Lemma absolute_value_Qabs (v : Q) : (absolute_value v == Qabs v)%Q.
Proof.
  unfold absolute_value. destruct (Qle_bool 0 v) eqn:Hv.
  - apply Qle_bool_iff in Hv. now rewrite Qabs_pos.
  - assert (Hneg : (v <= 0)%Q).
    { destruct (Qlt_le_dec 0 v) as [Hlt|Hle]; [|exact Hle].
      apply Qlt_le_weak, Qle_bool_iff in Hlt. congruence. }
    now rewrite Qabs_neg.
Qed.

Lemma absolute_sum_from (r : list Q) (acc : Q) :
  (fold_left (fun acc v => acc + absolute_value v) r acc == acc + abs_sum r)%Q.
Proof.
  revert acc. induction r as [|v r IH]; intros acc; cbn [fold_left].
  - unfold abs_sum. cbn. ring.
  - rewrite IH. change (abs_sum (v :: r)) with (Qabs v + abs_sum r)%Q.
    rewrite absolute_value_Qabs. ring.
Qed.

(** Line 56 computes the sum of the absolute values. *)
Lemma abs_sum_absolute_sum (r : list Q) : (abs_sum r == absolute_sum r)%Q.
Proof. unfold absolute_sum. rewrite absolute_sum_from. ring. Qed.

Lemma kept_rows_surviving (X : matrix) (mc : list Z) (i : Z) :
  kept_rows X mc i = surviving_rows X mc i.
Proof.
  unfold kept_rows, surviving_rows. apply filter_ext. intros r. f_equal.
  apply Bool.eq_iff_eq_true. rewrite !Qeq_bool_iff. now rewrite abs_sum_absolute_sum.
Qed.

(** C3: for every cluster index [i], the rows that the update keeps for the
    median of cluster [i] (the array [clean] of lines 53-59) are exactly the
    rows of the data whose label is [i], without those whose absolute values sum
    to exactly zero, in their order; a row with the label [i] and an entry that
    is not zero is among them, and a row of zeros never is, whatever its label.
    The data is replicated, or split along the rows over the ranks. *)
Theorem masking_keeps_labelled_nonzero_rows (x : DNDarray) (mc : list Z) (i : nat) :
  split x = None \/ partitioned x -> length mc = shape0 x ->
  garray (balance_ (array_is_split x (local_clean x mc (Z.of_nat i))))
  = kept_rows (garray x) mc (Z.of_nat i) /\
  (forall r, In r (assigned_rows (garray x) mc (Z.of_nat i)) ->
             Exists (fun v => ~ v == 0)%Q r ->
             In r (garray (balance_ (array_is_split x (local_clean x mc (Z.of_nat i)))))) /\
  (forall r, Forall (fun v => v == 0)%Q r ->
             ~ In r (garray (balance_ (array_is_split x (local_clean x mc (Z.of_nat i)))))).
Proof.
  intros Hlayout Hmc.
  assert (Hclean : garray (balance_ (array_is_split x (local_clean x mc (Z.of_nat i))))
                   = surviving_rows (garray x) mc (Z.of_nat i)).
  { rewrite <- clean_rows_surviving.
    destruct Hlayout; [now apply garray_clean_replicated|now apply garray_clean]. }
  rewrite Hclean. split; [now rewrite kept_rows_surviving|]. split.
  - intros r Hin Hnz. unfold surviving_rows. apply filter_In. split; [exact Hin|].
    destruct (Qeq_bool (abs_sum r) 0) eqn:Hb; [|reflexivity].
    apply Qeq_bool_iff in Hb. exfalso.
    apply Exists_exists in Hnz as (v & Hv & Hvnz).
    assert (Hall : Forall (fun v => v == 0)%Q r).
    { clear Hv Hvnz v Hin. unfold abs_sum in Hb.
      induction r as [|v r IH]; [constructor|]. cbn [map fold_right] in Hb.
      pose proof (Qabs_nonneg v) as Hv.
      assert (Hr : (0 <= foldr Qplus 0 (map Qabs r))%Q).
      { clear. induction r as [|u r IH]; cbn [map fold_right]; [lra|].
        pose proof (Qabs_nonneg u). lra. }
      constructor.
      - destruct (Qlt_le_dec v 0) as [Hneg|Hpos].
        + rewrite Qabs_neg in Hb, Hv by lra. lra.
        + rewrite Qabs_pos in Hb by lra. lra.
      - apply IH. lra. }
    rewrite List.Forall_forall in Hall. apply Hvnz, Hall. now apply list_elem_of_In.
  - intros r Hzero Hin.
    unfold surviving_rows in Hin. apply filter_In in Hin as [_ Hnz].
    apply abs_sum_all_zero, Qeq_bool_iff in Hzero. now rewrite Hzero in Hnz.
Qed.

(** Where the data is split over the ranks just as the communicator's table
    of first row indices says: when no row survives the masking of cluster [i],
    the update draws a global row index [s] in [0, N) from the sampler, the rank
    that holds row [s] reads that row from its local array, the broadcast hands
    it to every rank, and row [i] of the centers that the update returns is that
    row of the data, as it is. *)
Theorem empty_cluster_center_is_sampled_row (X lc : loc) (mc : list Z) (w : world)
    (x c : DNDarray) (i : nat) :
  sampler_in_range ->
  heap w !! X = Some x -> _cluster_centers (self w) = Some lc -> heap w !! lc = Some c ->
  partitioned x -> displs_agree x -> rectangular x ->
  (0 < shape0 x)%nat -> length mc = shape0 x ->
  (n_clusters (self w) <= shape0 c)%nat -> shape1 c = shape1 x ->
  (i < n_clusters (self w))%nat ->
  shape0 (balance_ (array_is_split x (local_clean x mc (Z.of_nat i)))) = 0%nat ->
  exists l w' c' g s proc r,
    _update_centroids X mc w = Returns l w' /\ heap w' !! l = Some c' /\
    s = fst (draw 0 (Z.of_nat (shape0 x)) g) /\ 0 <= s < Z.of_nat (shape0 x) /\
    find_proc (snd (counts_displs_shape (shape0 x))) s (seq 0 comm_size) 0 = Some proc /\
    (proc < comm_size)%nat /\
    Bcast (xi_local x (snd (counts_displs_shape (shape0 x))) s proc) proc = Some r /\
    garray x !! Z.to_nat s = Some r /\
    garray c' !! i = Some r.
Proof.
  intros Hdraw HX Hlc Hc Hpart Hdispl Hrect HN Hmc HK Hw Hi Hempty.
  set (K := n_clusters (self w)) in *.
  set (g := snd (new_centers x mc (take i (seq 0 K)) (random_state w))).
  set (s := fst (draw 0 (Z.of_nat (shape0 x)) g)).
  assert (Hs : 0 <= s < Z.of_nat (shape0 x)) by (apply Hdraw; lia).
  destruct (broadcast_row x s Hpart Hdispl Hs) as (proc & Hproc & Hlt & Hxi).
  destruct (lookup_lt_is_Some_2 (garray x) (Z.to_nat s)) as [r Hr];
    [unfold shape0 in Hs; lia|].
  eexists _, _, _, g, s, proc, r.
  split; [apply (update_centroids_returns X lc mc w x c); assumption|].
  split; [cbn [heap]; now rewrite lookup_app_r, Nat.sub_diag by lia|].
  split; [reflexivity|]. split; [exact Hs|]. split; [exact Hproc|]. split; [exact Hlt|].
  split; [now rewrite Hxi|]. split; [exact Hr|].
  cbn [with_garray garray]. fold K.
  rewrite centers_after_seq by (unfold shape0 in HK; simpl; lia). cbn [fst].
  rewrite take_0, app_nil_l.
  rewrite lookup_app_l by (rewrite new_centers_length, length_seq; exact Hi).
  rewrite (new_centers_lookup x mc (seq 0 K) (random_state w) i i)
    by (apply lookup_seq; lia).
  fold g. unfold new_center.
  unfold shape0 in Hempty. rewrite garray_clean in Hempty by assumption.
  rewrite Hempty. cbn [Nat.eqb]. fold s.
  destruct (draw 0 (Z.of_nat (shape0 x)) g) as [s' g'] eqn:Hsg.
  cbn [fst]. subst s. cbn [fst] in Hr. now rewrite Hr.
Qed.

Lemma median1_singleton (v : Q) : median1 [v] = v.
Proof. reflexivity. Qed.

Lemma median_axis0_singleton (r : list Q) : median_axis0 (length r) [r] = r.
Proof.
  unfold median_axis0, column. cbn [map].
  apply list_eq. intros j. rewrite list_lookup_fmap.
  destruct (r !! j) as [v|] eqn:Hj.
  - rewrite (lookup_seq_lt 0 (length r) j) by (now apply lookup_lt_Some in Hj).
    cbv [fmap option_fmap option_map]. cbn [Nat.add].
    rewrite median1_singleton. f_equal. now apply nth_lookup_Some with (d := 0%Q).
  - rewrite lookup_seq_ge; [reflexivity|]. now apply lookup_ge_None.
Qed.

(** A cluster whose only row does not sum to zero in absolute value gets that
    row for its center. *)
Lemma singleton_cluster_center (x : DNDarray) (mc : list Z) (i : nat) (g : rng) (r : list Q) :
  rectangular x -> assigned_rows (garray x) mc (Z.of_nat i) = [r] ->
  ~ (abs_sum r == 0)%Q ->
  new_center x mc i g = (r, g).
Proof.
  intros Hrect Hone Hnz. unfold new_center.
  rewrite clean_rows_surviving. unfold surviving_rows. rewrite Hone. cbn [List.filter].
  destruct (Qeq_bool (abs_sum r) 0) eqn:Hb; [now apply Qeq_bool_iff in Hb|].
  cbn. f_equal.
  assert (Hin : In r (garray x)).
  { assert (H : In r (assigned_rows (garray x) mc (Z.of_nat i))) by (rewrite Hone; now left).
    unfold assigned_rows in H. apply in_map_iff in H as ([r' c] & <- & H).
    apply filter_In in H as [H _]. apply list_elem_of_In in H.
    apply elem_of_zip_l in H. now apply list_elem_of_In. }
  unfold rectangular in Hrect. rewrite Forall_forall in Hrect.
  rewrite <- (Hrect r) by (now apply list_elem_of_In).
  apply median_axis0_singleton.
Qed.

(** ** The inertia of a pass *)

Lemma zip_with_nth {A B D} (f : A -> B -> D) (l : list A) (k : list B) (dA : A) (dB : B)
    (n : nat) :
  length l = n -> length k = n ->
  zip_with f l k = map (fun j => f (nth j l dA) (nth j k dB)) (seq 0 n).
Proof.
  revert k n. induction l as [|a l IH]; intros [|b k] n Hl Hk; simpl in *; subst n;
    try discriminate; [reflexivity|].
  cbn [seq map]. f_equal. rewrite <- seq_shift, map_map.
  apply IH; [reflexivity|lia].
Qed.

Lemma sum_app (l1 l2 : list Q) :
  (foldr Qplus 0 (l1 ++ l2) == foldr Qplus 0 l1 + foldr Qplus 0 l2)%Q.
Proof.
  induction l1 as [|q l1 IH]; cbn [app fold_right].
  - now rewrite Qplus_0_l.
  - rewrite IH. apply Qplus_assoc.
Qed.

Lemma sum_concat (L : list (list Q)) :
  (foldr Qplus 0 (concat L) == foldr Qplus 0 (map (foldr Qplus 0%Q) L))%Q.
Proof.
  induction L as [|l L IH]; cbn [concat map fold_right]; [reflexivity|].
  now rewrite sum_app, IH.
Qed.

(** On two K x D matrices, what line 111 computes is the sum over all K * D
    entries of the squared difference. *)
Lemma sq_diff_sum_entries (K D : nat) (A B : matrix) :
  length A = K -> length B = K ->
  Forall (fun r => length r = D) A -> Forall (fun r => length r = D) B ->
  (sq_diff_sum A B == inertia_sum K D A B)%Q.
Proof.
  intros HA HB HrA HrB. unfold sq_diff_sum, sum_all, inertia_sum.
  rewrite sum_concat. unfold pow2_matrix, sub_matrix.
  rewrite (zip_with_nth _ A B [] [] K HA HB), !map_map.
  erewrite map_ext_in; [reflexivity|].
  intros i Hi. apply in_seq in Hi. cbn beta.
  rewrite (zip_with_nth Qminus (nth i A []) (nth i B []) 0%Q 0%Q D), map_map; [reflexivity| |].
  - rewrite Forall_forall in HrA. apply HrA, list_elem_of_In, nth_In. lia.
  - rewrite Forall_forall in HrB. apply HrB, list_elem_of_In, nth_In. lia.
Qed.

Lemma bind_returns_inv {A B} (m : M A) (f : A -> M B) (w w' : world) (b : B) :
  bind m f w = Returns b w' -> exists a w1, m w = Returns a w1 /\ f a w1 = Returns b w'.
Proof. unfold bind. destruct (m w) as [a w1|e w1]; [eauto|discriminate]. Qed.

Lemma deref_returns_inv (l : loc) (a : DNDarray) (w w' : world) :
  deref l w = Returns a w' -> w' = w /\ heap w !! l = Some a.
Proof. unfold deref. destruct (heap w !! l); [intros [= <- <-]; auto|discriminate]. Qed.

Lemma lift_option_returns_inv {A} (e : exn) (o : option A) (a : A) (w w' : world) :
  lift_option e o w = Returns a w' -> w' = w /\ o = Some a.
Proof. destruct o; cbn; [intros [= <- <-]; auto|discriminate]. Qed.

(** C7: in a pass of [fit] that runs to its end, the inertia that is stored
    and compared with the tolerance is the sum, over all K * D entries, of the
    squared difference between the previous centers and the centers that this
    pass's update has returned; the previous centers are still what they were
    when the difference is taken, and the new centers of [self] are a copy of
    the update's. *)
Theorem inertia_is_squared_center_shift (X lc : loc) (w w' : world) (r : list Z * bool)
    (old : DNDarray) :
  fit_pass X w = Returns r w' ->
  _cluster_centers (self w) = Some lc -> heap w !! lc = Some old -> rectangular old ->
  exists lnew w2 new q lc',
    _update_centroids X (fst r)
      (with_self (set_n_iter (_n_iter (self w) + 1) (self w)) w) = Returns lnew w2 /\
    heap w2 !! lnew = Some new /\ heap w2 !! lc = Some old /\
    _inertia (self w') = Some q /\
    (q == inertia_sum (shape0 old) (shape1 old) (garray old) (garray new))%Q /\
    snd r = match tol (self w') with Some t => Qle_bool q t | None => false end /\
    _cluster_centers (self w') = Some lc' /\ heap w' !! lc' = Some new.
Proof.
  intros Hpass Hlc Hold Hrect. unfold fit_pass in Hpass.
  apply bind_returns_inv in Hpass as (u & w1 & Hmod & Hpass).
  injection Hmod as _ <-.
  set (w1 := with_self (set_n_iter (_n_iter (self w) + 1) (self w)) w) in *.
  apply bind_returns_inv in Hpass as (mc & w1' & Hassign & Hpass).
  pose proof (wp_assign_to_cluster X w1) as Hwa. unfold wp in Hwa. rewrite Hassign in Hwa.
  subst w1'.
  apply bind_returns_inv in Hpass as (lnew & w2 & Hupd & Hpass).
  assert (HS : forall lc0 c0, _cluster_centers (self w1) = Some lc0 -> heap w1 !! lc0 = Some c0 ->
                              shaped (shape0 old) (shape1 old) c0).
  { intros lc0 c0 Hlc0 Hc0. cbn in Hlc0, Hc0. assert (lc0 = lc) as -> by congruence.
    assert (c0 = old) as -> by congruence. repeat split. exact Hrect. }
  pose proof (wp_update_centroids _ X mc w1 (row_closed_shaped _ _) HS) as Hwu.
  unfold wp in Hwu. rewrite Hupd in Hwu.
  destruct Hwu as ([Hpre Hself] & Hfresh & (new & Hnew & HKnew & HDnew & Hrnew)).
  cbn beta in Hself.
  assert (Hold2 : heap w2 !! lc = Some old).
  { destruct Hpre as [k Hk]. rewrite Hk. now apply lookup_app_l_Some. }
  apply bind_returns_inv in Hpass as (k2 & w2' & Hget & Hpass). injection Hget as <- <-.
  apply bind_returns_inv in Hpass as (lc0 & w2' & Hopt & Hpass).
  apply lift_option_returns_inv in Hopt as [-> Hlc0].
  rewrite Hself in Hlc0. cbn in Hlc0. assert (lc0 = lc) as -> by congruence.
  apply bind_returns_inv in Hpass as (old' & w2' & Hd & Hpass).
  apply deref_returns_inv in Hd as [-> Hold'].
  assert (old' = old) as -> by congruence.
  apply bind_returns_inv in Hpass as (new' & w2' & Hd & Hpass).
  apply deref_returns_inv in Hd as [-> Hnew'].
  assert (new' = new) as -> by congruence.
  apply bind_returns_inv in Hpass as (u1 & w3 & Hmod & Hpass). injection Hmod as _ <-.
  apply bind_returns_inv in Hpass as (lc' & w4 & Hcopy & Hpass).
  rewrite (copy_returns lnew new) in Hcopy by exact Hnew. injection Hcopy as <- <-.
  apply bind_returns_inv in Hpass as (u2 & w5 & Hmod & Hpass). injection Hmod as _ <-.
  apply bind_returns_inv in Hpass as (k5 & w5 & Hget & Hpass). injection Hget as <- <-.
  injection Hpass as <- <-.
  exists lnew, w2, new, (sq_diff_sum (garray old) (garray new)), (length (heap w2)).
  cbn [fst snd self heap with_self with_heap _inertia _cluster_centers tol
         set_cluster_centers set_inertia].
  split; [exact Hupd|]. split; [exact Hnew|]. split; [exact Hold2|]. split; [reflexivity|].
  split.
  { unfold rectangular in Hrnew. rewrite HDnew in Hrnew.
    apply sq_diff_sum_entries; auto. }
  split.
  { unfold converged. cbn. now destruct (tol (self w2)). }
  split; [reflexivity|]. now rewrite lookup_app_r, Nat.sub_diag by lia.
Qed.

(** ** The claims about [fit] *)

Lemma fit_unfold (lx : loc) (w : world) (x : DNDarray) :
  heap w !! lx = Some x ->
  fit (PyDND lx) w =
  bind (fit_loop (Z.to_nat (max_iter (self w))) lx (replicate (shape0 x) 0))
       (fun mc => modify_self (set_labels mc)) (loop_entry x w).
Proof.
  intros Hx. cbn [fit]. unfold _initialize_cluster_centers.
  unfold bind at 1 2. rewrite (deref_returns _ _ _ Hx).
  unfold bind at 1, get_self at 1. unfold bind at 1, loop_entry.
  destruct (initial_centers (self w) x (random_state w)) as [c g]. cbn [fst snd].
  unfold bind at 1, alloc, modify_self at 1. unfold bind at 1, modify_self at 1.
  unfold bind at 1, deref.
  cbn [heap self with_self with_heap with_random random_state].
  rewrite (lookup_app_l_Some _ _ _ _ Hx).
  unfold bind at 1, get_self. reflexivity.
Qed.



(** C6: [fit] raises the input error (the ValueError of line 95) exactly when
    its argument is not an array, and then the world is the one it was called
    in: nothing has been initialised, no pass has run, no attribute is set. *)
Theorem fit_input_error (X : pyval) (w : world) :
  (forall ty, X = PyOther ty -> fit X w = Raises (ValueError_input ty) w) /\
  (forall ty w', fit X w = Raises (ValueError_input ty) w' -> X = PyOther ty /\ w' = w).
Proof.
  split.
  - intros ty ->. reflexivity.
  - intros ty w' Hfit. destruct X as [lx|ty0].
    + pose proof (wp_fit_array lx w) as H. unfold wp in H. rewrite Hfit in H.
      destruct H as (_ & _ & H). now destruct (H ty).
    + cbn in Hfit. now injection Hfit as -> ->.
Qed.

(** C8: whatever object is in the store when [fit] or the update is called
    (the data and the previous centers among them) is in the store unchanged
    when the call ends, by return or by exception; the centers that the update
    returns are an object that was not in the store before, and [self] still
    refers to the previous ones. *)
Theorem objects_are_never_mutated (X : pyval) (lx : loc) (mc : list Z) (w : world)
    (l : loc) (a : DNDarray) :
  heap w !! l = Some a ->
  heap (final_world (fit X w)) !! l = Some a /\
  heap (final_world (_update_centroids lx mc w)) !! l = Some a /\
  forall l' w', _update_centroids lx mc w = Returns l' w' ->
    l' <> l /\ heap w !! l' = None /\ is_Some (heap w' !! l') /\ self w' = self w.
Proof.
  intros Ha.
  assert (Hkeep : forall h, heap w `prefix_of` h -> h !! l = Some a).
  { intros h [k ->]. now apply lookup_app_l_Some. }
  assert (HS : forall lc c, _cluster_centers (self w) = Some lc -> heap w !! lc = Some c -> True)
    by auto.
  pose proof (wp_update_centroids (fun _ => True) lx mc w row_closed_True HS) as Hupd.
  unfold wp in Hupd.
  split; [|split].
  - destruct X as [lx0|ty]; [|exact Ha].
    pose proof (wp_fit_array lx0 w) as H. unfold wp in H.
    destruct (fit (PyDND lx0) w); apply Hkeep, H.
  - destruct (_update_centroids lx mc w); apply Hkeep, Hupd.
  - intros l' w' Hret. rewrite Hret in Hupd.
    destruct Hupd as ([_ Hself] & Hfresh & (c' & Hc' & _)).
    apply lookup_lt_Some in Ha as Hlt.
    split; [lia|]. split; [now apply lookup_ge_None|]. split; [eauto|exact Hself].
Qed.

(** C10: with [max_iter] 0, [fit] returns; the counter of passes is 0, the
    labels are the vector of N zeros of line 100, the centers are the initial
    ones, the sampler is where the initialisation has left it and no inertia
    has been stored: no assignment and no update has run. *)
Theorem fit_without_passes (lx : loc) (w : world) (x : DNDarray) :
  heap w !! lx = Some x -> max_iter (self w) = 0 ->
  exists w',
    fit (PyDND lx) w = Returns tt w' /\
    _n_iter (self w') = 0 /\
    _labels (self w') = Some (replicate (shape0 x) 0) /\
    heap w' = heap (loop_entry x w) /\ random_state w' = random_state (loop_entry x w) /\
    _cluster_centers (self w') = Some (length (heap w)) /\
    _inertia (self w') = _inertia (self w).
Proof.
  intros Hx Hmax. rewrite (fit_unfold lx w x Hx), Hmax.
  eexists. split; [reflexivity|]. cbn. repeat split.
Qed.

(** ** [fit] on valid input returns *)





End Update.

(** * Further properties of the update and of [fit] *)

Section Further.
Context `{C : Collaborators}.

(** ** Which rows the masking discards *)

Lemma abs_sum_nonneg (r : list Q) : (0 <= abs_sum r)%Q.
Proof.
  unfold abs_sum. induction r as [|v r IH]; cbn [map fold_right]; [lra|].
  pose proof (Qabs_nonneg v). lra.
Qed.

Lemma Qabs_zero_iff (v : Q) : (Qabs v == 0)%Q <-> (v == 0)%Q.
Proof.
  split.
  - intros H. destruct (Qlt_le_dec v 0) as [Hneg|Hpos].
    + rewrite Qabs_neg in H by lra. lra.
    + rewrite Qabs_pos in H by lra. exact H.
  - intros ->. reflexivity.
Qed.

(** The absolute values of a row sum to zero only for a row of zeros. *)
Lemma abs_sum_zero_all_zero (r : list Q) : Qeq_bool (abs_sum r) 0 = all_zero r.
Proof.
  apply Bool.eq_iff_eq_true. rewrite Qeq_bool_iff. unfold all_zero.
  induction r as [|v r IH]; [cbn; split; reflexivity|].
  change (abs_sum (v :: r)) with (Qabs v + abs_sum r)%Q.
  cbn [forallb]. rewrite Bool.andb_true_iff, <- IH, Qeq_bool_iff, <- (Qabs_zero_iff v).
  pose proof (abs_sum_nonneg r). pose proof (Qabs_nonneg v).
  split; [intros H1; split; lra|intros [H1 H2]; lra].
Qed.

(** X1: of the rows whose label is [i], the update keeps for the median of
    cluster [i] exactly those with an entry that is not zero, in their order:
    a row whose entries cancel, such as [1; -1], stays, because it is the
    absolute values that line 56 sums. *)
Theorem masking_discards_only_rows_of_zeros (x : DNDarray) (mc : list Z) (i : nat) :
  split x = None \/ partitioned x -> length mc = shape0 x ->
  garray (balance_ (array_is_split x (local_clean x mc (Z.of_nat i))))
  = List.filter (fun r => negb (all_zero r)) (assigned_rows (garray x) mc (Z.of_nat i)).
Proof.
  intros Hlayout Hmc.
  transitivity (clean_rows (garray x) mc (Z.of_nat i)).
  - destruct Hlayout; [now apply garray_clean_replicated|now apply garray_clean].
  - rewrite clean_rows_surviving. unfold surviving_rows.
    apply filter_ext. intros r. now rewrite abs_sum_zero_all_zero.
Qed.

(** ** The centers the update returns, row by row *)

Lemma update_centroids_result (X lc : loc) (mc : list Z) (w : world) (x c : DNDarray) :
  sampler_in_range ->
  heap w !! X = Some x -> _cluster_centers (self w) = Some lc -> heap w !! lc = Some c ->
  partitioned x -> displs_agree x -> rectangular x ->
  (0 < shape0 x)%nat -> length mc = shape0 x ->
  (n_clusters (self w) <= shape0 c)%nat -> shape1 c = shape1 x ->
  exists l w' c',
    _update_centroids X mc w = Returns l w' /\ heap w' !! l = Some c' /\
    garray c' = fst (new_centers x mc (seq 0 (n_clusters (self w))) (random_state w))
                ++ drop (n_clusters (self w)) (garray c) /\
    random_state w' = snd (new_centers x mc (seq 0 (n_clusters (self w))) (random_state w)).
Proof.
  intros Hdraw HX Hlc Hc Hpart Hdispl Hrect HN Hmc HK Hw.
  eexists _, _, _.
  split; [apply (update_centroids_returns X lc mc w x c); assumption|].
  split; [cbn [heap]; now rewrite lookup_app_r, Nat.sub_diag by lia|].
  cbn [with_garray garray random_state].
  rewrite centers_after_seq by (unfold shape0 in HK; simpl; lia). cbn [fst snd].
  now rewrite take_0, app_nil_l.
Qed.

(** X2: a cluster that keeps at least one row gets, for its center, the
    median along the columns of the rows it keeps, whatever happens to the
    other clusters and wherever the sampler stands. *)
Theorem nonempty_cluster_center_is_median (X lc : loc) (mc : list Z) (w : world)
    (x c : DNDarray) (i : nat) :
  sampler_in_range ->
  heap w !! X = Some x -> _cluster_centers (self w) = Some lc -> heap w !! lc = Some c ->
  partitioned x -> displs_agree x -> rectangular x ->
  (0 < shape0 x)%nat -> length mc = shape0 x ->
  (n_clusters (self w) <= shape0 c)%nat -> shape1 c = shape1 x ->
  (i < n_clusters (self w))%nat ->
  surviving_rows (garray x) mc (Z.of_nat i) <> [] ->
  exists l w' c',
    _update_centroids X mc w = Returns l w' /\ heap w' !! l = Some c' /\
    garray c' !! i
    = Some (median_axis0 (shape1 x) (surviving_rows (garray x) mc (Z.of_nat i))).
Proof.
  intros Hdraw HX Hlc Hc Hpart Hdispl Hrect HN Hmc HK Hw Hi Hne.
  destruct (update_centroids_result X lc mc w x c) as (l & w' & c' & Hret & Hc' & Hg & _);
    try assumption.
  exists l, w', c'. split; [exact Hret|]. split; [exact Hc'|].
  rewrite Hg, lookup_app_l by (rewrite new_centers_length, length_seq; exact Hi).
  rewrite (new_centers_lookup x mc _ _ i i) by (apply lookup_seq; lia).
  unfold new_center. rewrite clean_rows_surviving.
  destruct (surviving_rows (garray x) mc (Z.of_nat i)) as [|r rs]; [congruence|reflexivity].
Qed.

Lemma new_centers_sampler (x : DNDarray) (mc : list Z) (clusters : list nat) (g : rng) :
  snd (new_centers x mc clusters g)
  = Nat.iter (length (List.filter
                        (fun i => (length (surviving_rows (garray x) mc (Z.of_nat i)) =? 0)%nat)
                        clusters))
             (advance (shape0 x)) g.
Proof.
  revert g. induction clusters as [|i clusters IH]; intros g; [reflexivity|].
  cbn [new_centers List.filter]. unfold new_center. rewrite clean_rows_surviving.
  destruct (length (surviving_rows (garray x) mc (Z.of_nat i)) =? 0)%nat.
  - destruct (draw 0 (Z.of_nat (shape0 x)) g) as [s g'] eqn:Hdraw.
    specialize (IH g'). destruct (new_centers x mc clusters g') as [rs g''].
    cbn [snd length] in *. rewrite IH, Nat.iter_succ_r. unfold advance at 3.
    now rewrite Hdraw.
  - specialize (IH g). destruct (new_centers x mc clusters g) as [rs g''].
    exact IH.
Qed.

(** X3: the update asks the sampler once for every cluster that keeps no
    row, and not otherwise: the state of [ht.random] it leaves is the state it
    found, advanced by as many draws of a row index as there are empty
    clusters. *)
Theorem update_draws_once_per_empty_cluster (X lc : loc) (mc : list Z) (w : world)
    (x c : DNDarray) :
  sampler_in_range ->
  heap w !! X = Some x -> _cluster_centers (self w) = Some lc -> heap w !! lc = Some c ->
  partitioned x -> displs_agree x -> rectangular x ->
  (0 < shape0 x)%nat -> length mc = shape0 x ->
  (n_clusters (self w) <= shape0 c)%nat -> shape1 c = shape1 x ->
  exists l w',
    _update_centroids X mc w = Returns l w' /\
    random_state w'
    = Nat.iter (empty_count (garray x) mc (n_clusters (self w)))
               (advance (shape0 x)) (random_state w).
Proof.
  intros Hdraw HX Hlc Hc Hpart Hdispl Hrect HN Hmc HK Hw.
  destruct (update_centroids_result X lc mc w x c) as (l & w' & c' & Hret & _ & _ & Hg);
    try assumption.
  exists l, w'. split; [exact Hret|]. rewrite Hg. apply new_centers_sampler.
Qed.

(** X5: the update writes the rows 0 .. [n_clusters] - 1 and no other: where
    the previous centers have more rows than there are clusters, the rows from
    [n_clusters] on are in the returned centers as they were, and the number of
    rows is the same. *)
Theorem rows_beyond_n_clusters_are_kept (X lc : loc) (mc : list Z) (w : world)
    (x c : DNDarray) :
  sampler_in_range ->
  heap w !! X = Some x -> _cluster_centers (self w) = Some lc -> heap w !! lc = Some c ->
  partitioned x -> displs_agree x -> rectangular x ->
  (0 < shape0 x)%nat -> length mc = shape0 x ->
  (n_clusters (self w) <= shape0 c)%nat -> shape1 c = shape1 x ->
  exists l w' c',
    _update_centroids X mc w = Returns l w' /\ heap w' !! l = Some c' /\
    shape0 c' = shape0 c /\
    forall j, (n_clusters (self w) <= j)%nat -> garray c' !! j = garray c !! j.
Proof.
  intros Hdraw HX Hlc Hc Hpart Hdispl Hrect HN Hmc HK Hw.
  destruct (update_centroids_result X lc mc w x c) as (l & w' & c' & Hret & Hc' & Hg & _);
    try assumption.
  exists l, w', c'. split; [exact Hret|]. split; [exact Hc'|].
  assert (Hlen : length (fst (new_centers x mc (seq 0 (n_clusters (self w))) (random_state w)))
                 = n_clusters (self w)) by (now rewrite new_centers_length, length_seq).
  split.
  - unfold shape0 in *. rewrite Hg, length_app, Hlen, length_drop. lia.
  - intros j Hj. rewrite Hg, lookup_app_r by lia. rewrite Hlen, lookup_drop.
    f_equal. lia.
Qed.

(** ** A pass of [fit], taken apart *)

Lemma assign_returns_inv (X : loc) (w w' : world) (mc : list Z) :
  _assign_to_cluster X w = Returns mc w' ->
  w' = w /\
  exists x lc old, heap w !! X = Some x /\ _cluster_centers (self w) = Some lc /\
                   heap w !! lc = Some old /\ mc = nearest_center x old.
Proof.
  unfold _assign_to_cluster. intros H.
  apply bind_returns_inv in H as (x & w1 & Hd & H).
  apply deref_returns_inv in Hd as [-> Hx].
  apply bind_returns_inv in H as (k & w1 & Hget & H). injection Hget as <- <-.
  apply bind_returns_inv in H as (lc & w1 & Hopt & H).
  apply lift_option_returns_inv in Hopt as [-> Hlc].
  apply bind_returns_inv in H as (old & w1 & Hd & H).
  apply deref_returns_inv in Hd as [-> Hold].
  injection H as <- <-. split; [reflexivity|]. now exists x, lc, old.
Qed.

(** What a pass that returns has done, step by step. *)
Lemma fit_pass_returns_inv (X : loc) (w w' : world) (r : list Z * bool) :
  fit_pass X w = Returns r w' ->
  exists x lc old lnew w2 new,
    heap w !! X = Some x /\ _cluster_centers (self w) = Some lc /\ heap w !! lc = Some old /\
    fst r = nearest_center x old /\
    _update_centroids X (fst r)
      (with_self (set_n_iter (_n_iter (self w) + 1) (self w)) w) = Returns lnew w2 /\
    heap w `prefix_of` heap w2 /\ heap w2 !! lnew = Some new /\
    (rectangular old -> shaped (shape0 old) (shape1 old) new) /\
    w' = mkWorld (heap w2 ++ [new]) (random_state w2)
           (set_cluster_centers (length (heap w2))
              (set_inertia (sq_diff_sum (garray old) (garray new))
                 (set_n_iter (_n_iter (self w) + 1) (self w)))) /\
    snd r = converged (self w').
Proof.
  intros Hpass. unfold fit_pass in Hpass.
  apply bind_returns_inv in Hpass as (u & w1 & Hmod & Hpass). injection Hmod as _ <-.
  set (w1 := with_self (set_n_iter (_n_iter (self w) + 1) (self w)) w) in *.
  apply bind_returns_inv in Hpass as (mc & w1' & Hassign & Hpass).
  apply assign_returns_inv in Hassign as (-> & x & lc & old & Hx & Hlc & Hold & Hmc).
  apply bind_returns_inv in Hpass as (lnew & w2 & Hupd & Hpass).
  assert (HT : forall lc0 c0, _cluster_centers (self w1) = Some lc0 ->
                              heap w1 !! lc0 = Some c0 -> True) by auto.
  pose proof (wp_update_centroids _ X mc w1 row_closed_True HT) as Hwu.
  unfold wp in Hwu. rewrite Hupd in Hwu.
  destruct Hwu as ([Hpre Hself] & _ & (new & Hnew & _)). cbn beta in Hself.
  assert (Hshape : rectangular old -> shaped (shape0 old) (shape1 old) new).
  { intros Hrect.
    assert (HS : forall lc0 c0, _cluster_centers (self w1) = Some lc0 ->
                   heap w1 !! lc0 = Some c0 -> shaped (shape0 old) (shape1 old) c0).
    { intros lc0 c0 Hlc0 Hc0. assert (lc0 = lc) as -> by congruence.
      assert (c0 = old) as -> by congruence. now repeat split. }
    pose proof (wp_update_centroids _ X mc w1 (row_closed_shaped _ _) HS) as Hws.
    unfold wp in Hws. rewrite Hupd in Hws.
    destruct Hws as (_ & _ & (new' & Hnew' & Hs)).
    assert (new' = new) as -> by congruence. exact Hs. }
  assert (Hold2 : heap w2 !! lc = Some old).
  { destruct Hpre as [k Hk]. rewrite Hk. now apply lookup_app_l_Some. }
  apply bind_returns_inv in Hpass as (k2 & w2' & Hget & Hpass). injection Hget as <- <-.
  apply bind_returns_inv in Hpass as (lc0 & w2' & Hopt & Hpass).
  apply lift_option_returns_inv in Hopt as [-> Hlc0].
  rewrite Hself in Hlc0. assert (lc0 = lc) as -> by congruence.
  apply bind_returns_inv in Hpass as (old' & w2' & Hd & Hpass).
  apply deref_returns_inv in Hd as [-> Hold'].
  assert (old' = old) as -> by congruence.
  apply bind_returns_inv in Hpass as (new' & w2' & Hd & Hpass).
  apply deref_returns_inv in Hd as [-> Hnew'].
  assert (new' = new) as -> by congruence.
  apply bind_returns_inv in Hpass as (u1 & w3 & Hmod & Hpass). injection Hmod as _ <-.
  apply bind_returns_inv in Hpass as (lc' & w4 & Hcopy & Hpass).
  rewrite (copy_returns lnew new) in Hcopy by exact Hnew. injection Hcopy as <- <-.
  apply bind_returns_inv in Hpass as (u2 & w5 & Hmod & Hpass). injection Hmod as _ <-.
  apply bind_returns_inv in Hpass as (k5 & w5 & Hget & Hpass). injection Hget as <- <-.
  injection Hpass as <- <-.
  exists x, lc, old, lnew, w2, new. cbn [fst snd].
  split; [exact Hx|]. split; [exact Hlc|]. split; [exact Hold|]. split; [exact Hmc|].
  split; [exact Hupd|]. split; [exact Hpre|]. split; [exact Hnew|]. split; [exact Hshape|].
  cbn [heap self with_self with_heap random_state]. rewrite Hself. split; reflexivity.
Qed.



(** ** Tolerance and the number of passes *)

Lemma sum_squares_nonneg (r : list Q) : (0 <= foldr Qplus 0 (map (fun v => v ^ 2) r))%Q.
Proof.
  induction r as [|v r IH]; cbn [map fold_right]; [lra|].
  pose proof (Qsqr_nonneg v). lra.
Qed.

Lemma sq_diff_sum_nonneg (A B : matrix) : (0 <= sq_diff_sum A B)%Q.
Proof.
  unfold sq_diff_sum, sum_all, pow2_matrix.
  induction (sub_matrix A B) as [|r M IH]; cbn [map concat]; [cbn; lra|].
  rewrite sum_app. pose proof (sum_squares_nonneg r). lra.
Qed.

Lemma fit_pass_never_met (X : loc) (w w' : world) (r : list Z * bool) :
  never_met (tol (self w)) -> fit_pass X w = Returns r w' ->
  snd r = false /\ tol (self w') = tol (self w) /\
  _n_iter (self w') = _n_iter (self w) + 1.
Proof.
  intros Htol Hpass.
  apply fit_pass_returns_inv in Hpass
    as (x & lc & old & lnew & w2 & new & _ & _ & _ & _ & _ & _ & _ & _ & -> & Hb).
  rewrite Hb. cbn. split; [|split; reflexivity].
  unfold converged. cbn. destruct (tol (self w)) as [t|]; [|reflexivity].
  cbn in Htol. pose proof (sq_diff_sum_nonneg (garray old) (garray new)) as Hq.
  destruct (Qle_bool (sq_diff_sum (garray old) (garray new)) t) eqn:Hle; [|reflexivity].
  apply Qle_bool_iff in Hle. lra.
Qed.

Lemma fit_loop_never_met (N : nat) (X : loc) (mc mc' : list Z) (w w' : world) :
  never_met (tol (self w)) -> fit_loop N X mc w = Returns mc' w' ->
  _n_iter (self w') = _n_iter (self w) + Z.of_nat N.
Proof.
  revert mc w. induction N as [|N IH]; intros mc w Htol Hloop.
  - injection Hloop as _ <-. lia.
  - cbn [fit_loop] in Hloop.
    apply bind_returns_inv in Hloop as ([mc1 b] & w1 & Hpass & Hret).
    destruct (fit_pass_never_met X w w1 _ Htol Hpass) as (Hb & Ht & Hn).
    cbn [fst snd] in Hb, Hret. subst b.
    rewrite (IH mc1 w1) by (rewrite ?Ht; assumption). lia.
Qed.

(** X8: the inertia of a pass is never below zero, so with no tolerance, or
    a tolerance below zero, no pass ends in [break]: when [fit] returns it has
    run exactly [max_iter] passes. *)
Theorem fit_without_tolerance_runs_max_iter_passes (lx : loc) (w w' : world) (x : DNDarray) :
  heap w !! lx = Some x -> 0 <= max_iter (self w) -> never_met (tol (self w)) ->
  fit (PyDND lx) w = Returns tt w' ->
  _n_iter (self w') = max_iter (self w).
Proof.
  intros Hx Hmax Htol Hfit. rewrite (fit_unfold lx w x Hx) in Hfit.
  apply bind_returns_inv in Hfit as (mc & w1 & Hloop & Hset). injection Hset as <-.
  apply fit_loop_never_met in Hloop; [|exact Htol].
  cbn in Hloop |- *. lia.
Qed.

(** X10: the test for convergence comes after the update: with [max_iter] at
    least 1, [fit] runs a first pass whatever inertia [self] still carries from
    an earlier call, and the counter of passes it leaves, by return or by
    exception, is at least 1. *)
Theorem fit_runs_at_least_one_pass (lx : loc) (w : world) (x : DNDarray) :
  heap w !! lx = Some x -> 1 <= max_iter (self w) ->
  1 <= _n_iter (self (final_world (fit (PyDND lx) w))).
Proof.
  intros Hx Hmax. rewrite (fit_unfold lx w x Hx).
  destruct (Z.to_nat (max_iter (self w))) as [|N] eqn:HN; [lia|].
  set (w0 := loop_entry x w).
  assert (H0 : _n_iter (self w0) = 0) by reflexivity.
  assert (Hloop : 1 <= _n_iter (self (final_world (fit_loop (S N) lx
                                                     (replicate (shape0 x) 0) w0)))).
  { cbn [fit_loop]. unfold bind.
    pose proof (fit_pass_facts lx w0) as Hfacts.
    destruct (fit_pass lx w0) as [[mc1 b] w1|e w1]; [|cbn; lia].
    destruct Hfacts as [Hn _]. cbn [fst snd]. destruct b; [cbn; lia|].
    destruct (fit_loop_passes N lx mc1 w1) as (n & _ & _ & Hcount & _). lia. }
  unfold bind. destruct (fit_loop (S N) lx (replicate (shape0 x) 0) w0); exact Hloop.
Qed.

(** ** Inertia zero *)

Lemma sum_nonneg (l : list Q) :
  Forall (fun v => 0 <= v)%Q l -> (0 <= foldr Qplus 0 l)%Q.
Proof. induction 1 as [|v l Hv _ IH]; cbn [fold_right]; lra. Qed.

Lemma sum_nonneg_zero_iff (l : list Q) :
  Forall (fun v => 0 <= v)%Q l ->
  (foldr Qplus 0 l == 0)%Q <-> Forall (fun v => v == 0)%Q l.
Proof.
  induction 1 as [|v l Hv Hl IH]; cbn [fold_right].
  - split; [constructor|reflexivity].
  - pose proof (sum_nonneg l Hl) as Hs. split.
    + intros H. constructor; [lra|]. apply IH. lra.
    + intros H. apply Forall_cons in H as [H1 H2]. apply IH in H2. lra.
Qed.

Lemma sum_seq_zero_iff (f : nat -> Q) (n : nat) :
  (forall i, (i < n)%nat -> 0 <= f i)%Q ->
  (foldr Qplus 0 (map f (seq 0 n)) == 0)%Q <-> (forall i, (i < n)%nat -> f i == 0)%Q.
Proof.
  intros Hf. rewrite sum_nonneg_zero_iff.
  - rewrite List.Forall_map, List.Forall_forall. split.
    + intros H i Hi. apply H, in_seq. lia.
    + intros H i Hi. apply in_seq in Hi. apply H. lia.
  - rewrite List.Forall_map, List.Forall_forall. intros i Hi. apply in_seq in Hi.
    apply Hf. lia.
Qed.

Lemma square_zero_iff (a b : Q) : ((a - b) ^ 2 == 0)%Q <-> (a == b)%Q.
Proof.
  change ((a - b) ^ 2)%Q with ((a - b) * (a - b))%Q. split.
  - intros H. apply Qmult_integral in H. destruct H; lra.
  - intros ->. ring.
Qed.

(** The sum of the squared differences is zero exactly for matrices that
    agree in every entry. *)
Lemma inertia_sum_zero_iff (K D : nat) (A B : matrix) :
  (inertia_sum K D A B == 0)%Q <->
  (forall i j, (i < K)%nat -> (j < D)%nat -> entry A i j == entry B i j)%Q.
Proof.
  unfold inertia_sum.
  rewrite (sum_seq_zero_iff
             (fun i => foldr Qplus 0%Q
                         (map (fun j => ((entry A i j - entry B i j) ^ 2)%Q) (seq 0 D))) K).
  - split.
    + intros H i j Hi Hj. specialize (H i Hi).
      rewrite (sum_seq_zero_iff (fun j => ((entry A i j - entry B i j) ^ 2)%Q) D) in H
        by (intros; apply Qsqr_nonneg).
      apply square_zero_iff, H, Hj.
    + intros H i Hi.
      apply (sum_seq_zero_iff (fun j => ((entry A i j - entry B i j) ^ 2)%Q) D);
        [intros; apply Qsqr_nonneg|].
      intros j Hj. apply square_zero_iff, H; assumption.
  - intros i Hi. apply sum_nonneg. rewrite List.Forall_map, List.Forall_forall.
    intros j _. apply Qsqr_nonneg.
Qed.

(** X9: when the update of a pass returns centers that agree with the
    previous ones in every entry, the inertia that the pass stores is zero,
    and with a tolerance that is set and not below zero the pass ends in
    [break]: a fixed point of the update ends the loop. *)
Theorem unchanged_centers_end_the_loop (X lc : loc) (w w' : world)
    (r : list Z * bool) (old : DNDarray) :
  fit_pass X w = Returns r w' ->
  _cluster_centers (self w) = Some lc -> heap w !! lc = Some old -> rectangular old ->
  exists q lc' new,
    _inertia (self w') = Some q /\
    _cluster_centers (self w') = Some lc' /\ heap w' !! lc' = Some new /\
    shape0 new = shape0 old /\ shape1 new = shape1 old /\
    ((forall i j, (i < shape0 old)%nat -> (j < shape1 old)%nat ->
                  entry (garray old) i j == entry (garray new) i j)%Q ->
     (q == 0)%Q /\
     forall t, tol (self w) = Some t -> (0 <= t)%Q -> snd r = true).
Proof.
  intros Hpass Hlc Hold Hrect.
  apply fit_pass_returns_inv in Hpass
    as (x & lc0 & old0 & lnew & w2 & new & _ & Hlc0 & Hold0 & _ & _ & _ & _ & Hshape & -> & Hb).
  assert (lc0 = lc) as -> by congruence. assert (old0 = old) as -> by congruence.
  destruct (Hshape Hrect) as (HK & HD & Hrnew).
  assert (Hq : (sq_diff_sum (garray old) (garray new)
                == inertia_sum (shape0 old) (shape1 old) (garray old) (garray new))%Q).
  { unfold rectangular in Hrnew. rewrite HD in Hrnew. apply sq_diff_sum_entries; auto. }
  exists (sq_diff_sum (garray old) (garray new)), (length (heap w2)), new.
  cbn [self heap _inertia _cluster_centers set_cluster_centers set_inertia].
  split; [reflexivity|]. split; [reflexivity|].
  split; [now rewrite lookup_app_r, Nat.sub_diag by lia|].
  split; [exact HK|]. split; [exact HD|].
  intros Hsame. apply inertia_sum_zero_iff in Hsame. rewrite <- Hq in Hsame.
  split; [exact Hsame|].
  intros t Ht Ht0. rewrite Hb. unfold converged. cbn. rewrite Ht.
  apply Qle_bool_iff. lra.
Qed.

(** ** The failsafe on replicated data *)

Lemma find_proc_from_lower (counts : list nat) (s : Z) (n p : nat) :
  (S p + n = length counts)%nat ->
  Z.of_nat (sum_counts (take p counts)) <= s ->
  exists q, find_proc (displs_from 0 counts) s (seq (S p) n) p = Some q /\
            (q < length counts)%nat /\ Z.of_nat (sum_counts (take q counts)) <= s.
Proof.
  revert p. induction n as [|n IH]; intros p Hlen Hs.
  - exists p. simpl. split; [reflexivity|]. split; [lia|exact Hs].
  - simpl. rewrite displs_from_lookup by lia. rewrite Z.add_0_l.
    destruct (Z.gtb_spec (Z.of_nat (sum_counts (take (S p) counts))) s) as [Hgt|Hle].
    + exists p. split; [reflexivity|]. split; [lia|exact Hs].
    + apply IH; [lia|exact Hle].
Qed.

Lemma find_proc_lower (counts : list nat) (s : Z) :
  0 <= s -> (0 < length counts)%nat ->
  exists q, find_proc (displs_from 0 counts) s (seq 0 (length counts)) 0 = Some q /\
            (q < length counts)%nat /\ Z.of_nat (sum_counts (take q counts)) <= s.
Proof.
  intros Hs Hlen. destruct counts as [|c counts]; [simpl in Hlen; lia|].
  cbn [length seq find_proc]. rewrite displs_from_lookup by (simpl; lia).
  change (sum_counts (take 0 (c :: counts))) with 0%nat.
  destruct (Z.gtb_spec (0 + Z.of_nat 0) s) as [Hgt|_]; [lia|].
  apply find_proc_from_lower; [reflexivity|].
  change (sum_counts (take 0 (c :: counts))) with 0%nat. lia.
Qed.

(** X11: on replicated data (no split), where every rank holds all rows, the
    rank [proc] that the search of lines 65-69 finds reads its row at the index
    [s - displ[proc]] of the whole data: the center of an empty cluster is then
    the row [s - displ[proc]], a row of the data, and the row [s] that the
    sampler has drawn only when [proc]'s first row index is 0. *)
Theorem failsafe_row_on_replicated_data (X ncc : loc) (mc : list Z) (i : nat) (w : world)
    (x a : DNDarray) (counts : list nat) :
  sampler_in_range ->
  heap w !! X = Some x -> heap w !! ncc = Some a ->
  split x = None -> rectangular x -> (0 < shape0 x)%nat -> length mc = shape0 x ->
  (i < shape0 a)%nat -> shape1 a = shape1 x ->
  snd (counts_displs_shape (shape0 x)) = displs_from 0 counts ->
  length counts = comm_size -> (0 < comm_size)%nat ->
  surviving_rows (garray x) mc (Z.of_nat i) = [] ->
  exists proc d r,
    find_proc (snd (counts_displs_shape (shape0 x)))
      (fst (draw 0 (Z.of_nat (shape0 x)) (random_state w))) (seq 0 comm_size) 0 = Some proc /\
    snd (counts_displs_shape (shape0 x)) !! proc = Some d /\
    0 <= d <= fst (draw 0 (Z.of_nat (shape0 x)) (random_state w)) /\
    garray x !! Z.to_nat (fst (draw 0 (Z.of_nat (shape0 x)) (random_state w)) - d) = Some r /\
    update_cluster X mc ncc i w =
    Returns tt
      (mkWorld (<[ncc := with_garray a (<[i := r]> (garray a))]> (heap w))
               (snd (draw 0 (Z.of_nat (shape0 x)) (random_state w)))
               (self w)).
Proof.
  intros Hdraw HX Hncc Hsplit Hrect HN Hmc Hi Hw Htable Hsize Hranks Hempty.
  pose proof (Hdraw 0 (Z.of_nat (shape0 x)) (random_state w) ltac:(lia)) as Hs.
  destruct (draw 0 (Z.of_nat (shape0 x)) (random_state w)) as [s g'] eqn:Hsg.
  cbn [fst snd] in *.
  destruct (find_proc_lower counts s) as (proc & Hproc & Hlt & Hd); [lia|lia|].
  set (d := Z.of_nat (sum_counts (take proc counts))) in *.
  destruct (lookup_lt_is_Some_2 (garray x) (Z.to_nat (s - d))) as [r Hr];
    [unfold shape0 in Hs; lia|].
  assert (Hdispl : snd (counts_displs_shape (shape0 x)) !! proc = Some d).
  { rewrite Htable, displs_from_lookup by exact Hlt. now rewrite Z.add_0_l. }
  exists proc, d, r.
  split; [now rewrite Htable, <- Hsize|]. split; [exact Hdispl|].
  split; [lia|]. split; [exact Hr|].
  unfold update_cluster.
  rewrite (bind_returns _ _ _ _ _ (deref_returns _ _ _ HX)).
  rewrite (proj2 (Nat.eqb_eq _ _) Hmc). cbn [negb].
  unfold shape0 at 1. rewrite garray_clean_replicated, clean_rows_surviving, Hempty
    by exact Hsplit.
  cbn [length Nat.eqb].
  unfold randint, bind at 1.
  destruct (Z.ltb_spec 0 (Z.of_nat (shape0 x))) as [_|]; [|lia].
  rewrite Hsg. rewrite Htable, <- Hsize, Hproc.
  unfold lift_option at 1, bind at 1, ret at 1.
  unfold Bcast, xi_local. rewrite Nat.eqb_refl.
  rewrite displs_from_lookup, Z.add_0_l by exact Hlt. fold d.
  unfold lloc. rewrite Hsplit. unfold py_index.
  destruct (Z.leb_spec 0 (s - d)); [|lia].
  destruct (Z.ltb_spec (s - d) (Z.of_nat (length (garray x))));
    [|unfold shape0 in Hs; lia].
  cbn [andb]. rewrite Hr. unfold lift_option at 1, bind at 1, ret at 1.
  unfold setitem_row.
  rewrite (bind_returns _ _ _ _ _ (deref_returns ncc a (with_random g' w) Hncc)).
  rewrite (proj2 (Nat.ltb_lt _ _) Hi).
  rewrite fit_width_same; [reflexivity|].
  rewrite Hw. unfold rectangular in Hrect. rewrite Forall_lookup in Hrect.
  exact (Hrect _ _ Hr).
Qed.

(** ** The layout of the data does not matter to the medians *)

Lemma garray_clean_laid_out (x : DNDarray) (mc : list Z) (i : Z) :
  laid_out x -> length mc = shape0 x ->
  garray (balance_ (array_is_split x (local_clean x mc i))) = clean_rows (garray x) mc i.
Proof.
  intros [Hnone|Hpart] Hmc; [now apply garray_clean_replicated|now apply garray_clean].
Qed.

Lemma new_center_nonempty (x : DNDarray) (mc : list Z) (i : nat) (g : rng) :
  surviving_rows (garray x) mc (Z.of_nat i) <> [] ->
  new_center x mc i g
  = (median_axis0 (shape1 x) (surviving_rows (garray x) mc (Z.of_nat i)), g).
Proof.
  intros Hne. unfold new_center. rewrite clean_rows_surviving.
  destruct (surviving_rows (garray x) mc (Z.of_nat i)); [congruence|reflexivity].
Qed.

Lemma update_cluster_median_returns (X ncc : loc) (mc : list Z) (i : nat) (w : world)
    (x a : DNDarray) :
  heap w !! X = Some x -> heap w !! ncc = Some a ->
  laid_out x -> length mc = shape0 x -> shape1 a = shape1 x ->
  surviving_rows (garray x) mc (Z.of_nat i) <> [] ->
  update_cluster X mc ncc i w =
  Returns tt
    (with_heap
       (<[ncc := with_garray a
                   (<[i := median_axis0 (shape1 x)
                             (surviving_rows (garray x) mc (Z.of_nat i))]> (garray a))]>
          (heap w)) w).
Proof.
  intros HX Hncc Hlay Hmc Hw Hne. unfold update_cluster.
  rewrite (bind_returns _ _ _ _ _ (deref_returns _ _ _ HX)).
  rewrite (proj2 (Nat.eqb_eq _ _) Hmc). cbn [negb].
  unfold shape0 at 1. rewrite garray_clean_laid_out, clean_rows_surviving by assumption.
  destruct (length (surviving_rows (garray x) mc (Z.of_nat i)) =? 0)%nat eqn:Hlen.
  { apply Nat.eqb_eq, length_zero_iff_nil in Hlen. contradiction. }
  unfold setitem_slice.
  rewrite (bind_returns _ _ _ _ _ (deref_returns _ _ _ Hncc)).
  unfold ht_median.
  set (clean := balance_ (array_is_split x (local_clean x mc (Z.of_nat i)))).
  assert (Hg : garray (if (shape0 clean <=? MPI_WORLD_size)%nat then resplit_None clean else clean)
               = surviving_rows (garray x) mc (Z.of_nat i)).
  { rewrite <- clean_rows_surviving.
    destruct (shape0 clean <=? MPI_WORLD_size)%nat; simpl; subst clean;
      apply garray_clean_laid_out; assumption. }
  assert (Hs1 : shape1 (if (shape0 clean <=? MPI_WORLD_size)%nat then resplit_None clean else clean)
                = shape1 x).
  { destruct (shape0 clean <=? MPI_WORLD_size)%nat; simpl; subst clean; apply shape1_clean. }
  rewrite Hg, Hs1.
  rewrite fit_width_same by (rewrite length_median_axis0; congruence).
  reflexivity.
Qed.

(** The medians of the clusters, written one after the other. *)
Lemma for_each_median_returns (X ncc : loc) (mc : list Z) (x : DNDarray)
    (clusters : list nat) (w : world) (a : DNDarray) :
  heap w !! X = Some x -> heap w !! ncc = Some a -> X <> ncc ->
  laid_out x -> length mc = shape0 x -> shape1 a = shape1 x ->
  Forall (fun i => surviving_rows (garray x) mc (Z.of_nat i) <> []) clusters ->
  for_each clusters (update_cluster X mc ncc) w =
  Returns tt
    (with_heap
       (<[ncc := with_garray a
                   (foldl (fun m i => <[i := median_axis0 (shape1 x)
                                               (surviving_rows (garray x) mc (Z.of_nat i))]> m)
                          (garray a) clusters)]>
          (heap w)) w).
Proof.
  intros HX Hncc Hne Hlay Hmc Hw Hall. revert w a HX Hncc Hw.
  induction Hall as [|i clusters Hi _ IH]; intros w a HX Hncc Hw.
  - cbn [for_each foldl]. unfold ret. rewrite with_garray_id, list_insert_id by exact Hncc.
    now destruct w.
  - cbn [for_each foldl].
    rewrite (bind_returns _ _ _ _ _
               (update_cluster_median_returns X ncc mc i w x a HX Hncc Hlay Hmc Hw Hi)).
    rewrite (IH _ (with_garray a
                     (<[i := median_axis0 (shape1 x)
                               (surviving_rows (garray x) mc (Z.of_nat i))]> (garray a)))).
    + cbn [heap with_heap with_garray garray split shape1 lshape_map random_state self].
      now rewrite list_insert_insert_eq.
    + cbn [heap with_heap]. now rewrite list_lookup_insert_ne by congruence.
    + cbn [heap with_heap]. apply list_lookup_insert_eq. now apply lookup_lt_Some in Hncc.
    + exact Hw.
Qed.

Lemma foldl_insert_seq {A} (f : nat -> A) (n j : nat) (m : list A) :
  (j + n <= length m)%nat ->
  foldl (fun m i => <[i := f i]> m) m (seq j n) = take j m ++ map f (seq j n) ++ drop (j + n) m.
Proof.
  revert j m. induction n as [|n IH]; intros j m Hlen.
  - simpl. now rewrite Nat.add_0_r, take_drop.
  - cbn [seq foldl map]. rewrite IH by (rewrite length_insert; lia).
    rewrite (take_S_r _ j (f j)) by (apply list_lookup_insert_eq; lia).
    rewrite take_insert_ge by lia. rewrite drop_insert_lt by lia.
    rewrite <- app_assoc. simpl. repeat f_equal. lia.
Qed.

(** X12: where every cluster keeps at least one row, the update needs
    neither the sampler nor the table of first row indices, and the way the
    rows are laid out over the ranks does not matter: on the same rows and
    labels, replicated or split in any way, and over previous centers of K rows
    and D columns, it returns the K medians, and leaves the sampler as it was. *)
Theorem update_is_layout_independent (X1 X2 lc1 lc2 : loc) (mc : list Z) (w1 w2 : world)
    (x1 x2 c1 c2 : DNDarray) :
  heap w1 !! X1 = Some x1 -> heap w2 !! X2 = Some x2 ->
  garray x1 = garray x2 -> shape1 x1 = shape1 x2 ->
  laid_out x1 -> laid_out x2 -> length mc = shape0 x1 ->
  _cluster_centers (self w1) = Some lc1 -> heap w1 !! lc1 = Some c1 ->
  _cluster_centers (self w2) = Some lc2 -> heap w2 !! lc2 = Some c2 ->
  n_clusters (self w1) = n_clusters (self w2) ->
  shape0 c1 = n_clusters (self w1) -> shape0 c2 = n_clusters (self w2) ->
  shape1 c1 = shape1 x1 -> shape1 c2 = shape1 x2 ->
  (forall i, (i < n_clusters (self w1))%nat ->
             surviving_rows (garray x1) mc (Z.of_nat i) <> []) ->
  exists l1 w1' a1 l2 w2' a2,
    _update_centroids X1 mc w1 = Returns l1 w1' /\ heap w1' !! l1 = Some a1 /\
    _update_centroids X2 mc w2 = Returns l2 w2' /\ heap w2' !! l2 = Some a2 /\
    garray a1 = map (fun i => median_axis0 (shape1 x1)
                                (surviving_rows (garray x1) mc (Z.of_nat i)))
                    (seq 0 (n_clusters (self w1))) /\
    garray a2 = garray a1 /\
    random_state w1' = random_state w1 /\ random_state w2' = random_state w2.
Proof.
  intros HX1 HX2 Hrows Hcols Hlay1 Hlay2 Hmc Hlc1 Hc1 Hlc2 Hc2 HK HK1 HK2 HD1 HD2 Hne.
  assert (Hrun : forall (X lc : loc) (w : world) (x c : DNDarray),
            heap w !! X = Some x -> garray x = garray x1 -> shape1 x = shape1 x1 ->
            laid_out x -> _cluster_centers (self w) = Some lc -> heap w !! lc = Some c ->
            n_clusters (self w) = n_clusters (self w1) ->
            shape0 c = n_clusters (self w) -> shape1 c = shape1 x ->
            exists l w' a,
              _update_centroids X mc w = Returns l w' /\ heap w' !! l = Some a /\
              garray a = map (fun i => median_axis0 (shape1 x1)
                                         (surviving_rows (garray x1) mc (Z.of_nat i)))
                             (seq 0 (n_clusters (self w1))) /\
              random_state w' = random_state w).
  { intros X lc w x c HX Hg Hs Hlay Hlc Hc HKw HKc HDc.
    pose proof (lookup_lt_Some _ _ _ HX) as HXlt.
    assert (Hmcx : length mc = shape0 x) by (unfold shape0 in *; now rewrite Hg).
    assert (Hall : Forall (fun i => surviving_rows (garray x) mc (Z.of_nat i) <> [])
                          (seq 0 (n_clusters (self w)))).
    { apply Forall_forall. intros i Hi. apply elem_of_seq in Hi. rewrite Hg.
      apply Hne. lia. }
    eexists _, _, _. split.
    - unfold _update_centroids, get_self. unfold bind at 1. rewrite Hlc.
      unfold lift_option, ret at 1, bind at 1.
      rewrite (bind_returns _ _ _ _ _ (copy_returns _ _ _ Hc)).
      rewrite (bind_returns _ _ _ _ _
                 (for_each_median_returns X (length (heap w)) mc x _
                    (with_heap (heap w ++ [c]) w) c
                    ltac:(cbn [heap with_heap]; now apply lookup_app_l_Some)
                    ltac:(cbn [heap with_heap]; now rewrite lookup_app_r, Nat.sub_diag by lia)
                    ltac:(lia) Hlay Hmcx HDc Hall)).
      unfold ret. reflexivity.
    - cbn [heap with_heap]. rewrite insert_app_r_alt, Nat.sub_diag by lia.
      split; [now rewrite lookup_app_r, Nat.sub_diag by lia|].
      cbn [with_garray garray random_state with_heap].
      split; [|reflexivity].
      rewrite foldl_insert_seq by (unfold shape0 in HKc; simpl; lia).
      rewrite take_0, app_nil_l. unfold shape0 in HKc.
      rewrite Nat.add_0_l, drop_ge, app_nil_r by lia.
      now rewrite Hg, Hs, HKw. }
  destruct (Hrun X1 lc1 w1 x1 c1) as (l1 & w1' & a1 & Hr1 & Ha1 & Hg1 & Hs1); auto.
  destruct (Hrun X2 lc2 w2 x2 c2) as (l2 & w2' & a2 & Hr2 & Ha2 & Hg2 & Hs2); auto;
    try congruence.
  exists l1, w1', a1, l2, w2', a2. repeat split; try assumption. congruence.
Qed.

(** ** The update without the store *)

Lemma update_cluster_result (X ncc : loc) (mc : list Z) (i : nat) (w : world)
    (x a : DNDarray) :
  heap w !! X = Some x -> heap w !! ncc = Some a ->
  update_cluster X mc ncc i w =
  match cluster_result x a mc i (random_state w) with
  | inl (e, g) => Raises e (mkWorld (heap w) g (self w))
  | inr (a', g) => Returns tt (mkWorld (<[ncc := a']> (heap w)) g (self w))
  end.
Proof.
  destruct w as [h g0 k]. cbn [heap random_state self]. intros HX Hncc.
  unfold update_cluster, cluster_result.
  rewrite (bind_returns _ _ _ _ _ (deref_returns X x (mkWorld h g0 k) HX)).
  destruct (negb (length mc =? shape0 x)%nat); [reflexivity|].
  destruct (shape0 (balance_ (array_is_split x (local_clean x mc (Z.of_nat i)))) =? 0)%nat.
  - unfold randint, bind at 1. cbn [random_state].
    destruct (0 <? Z.of_nat (shape0 x)); [|reflexivity].
    destruct (draw 0 (Z.of_nat (shape0 x)) g0) as [s g']. cbn [fst snd].
    destruct (find_proc (snd (counts_displs_shape (shape0 x))) s (seq 0 comm_size) 0)
      as [proc|]; [|reflexivity].
    unfold lift_option at 1, bind at 1, ret at 1.
    destruct (Bcast (xi_local x (snd (counts_displs_shape (shape0 x))) s proc) proc)
      as [xi|]; [|reflexivity].
    unfold lift_option at 1, bind at 1, ret at 1. unfold setitem_row.
    rewrite (bind_returns _ _ _ _ _
               (deref_returns ncc a (with_random g' (mkWorld h g0 k)) Hncc)).
    destruct (i <? shape0 a)%nat; [|reflexivity].
    destruct (fit_width (shape1 a) xi) as [v|]; reflexivity.
  - unfold setitem_slice.
    rewrite (bind_returns _ _ _ _ _ (deref_returns ncc a (mkWorld h g0 k) Hncc)).
    match goal with
    | |- context [fit_width (shape1 a) ?m] => destruct (fit_width (shape1 a) m) as [v|]
    end; reflexivity.
Qed.

Lemma for_each_clusters_result (X ncc : loc) (mc : list Z) (x : DNDarray)
    (clusters : list nat) (w : world) (a : DNDarray) :
  heap w !! X = Some x -> heap w !! ncc = Some a -> X <> ncc ->
  for_each clusters (update_cluster X mc ncc) w =
  match clusters_result x a mc clusters (random_state w) with
  | inl (e, a', g) => Raises e (mkWorld (<[ncc := a']> (heap w)) g (self w))
  | inr (a', g) => Returns tt (mkWorld (<[ncc := a']> (heap w)) g (self w))
  end.
Proof.
  intros HX Hncc Hne. revert w a HX Hncc.
  induction clusters as [|i clusters IH]; intros w a HX Hncc.
  - cbn [for_each clusters_result]. unfold ret.
    rewrite list_insert_id by exact Hncc. now destruct w.
  - cbn [for_each clusters_result]. unfold bind.
    rewrite (update_cluster_result X ncc mc i w x a HX Hncc).
    destruct (cluster_result x a mc i (random_state w)) as [[e g]|[a' g]].
    + now rewrite list_insert_id by exact Hncc.
    + rewrite (IH _ a').
      * cbn [heap random_state self].
        destruct (clusters_result x a' mc clusters g) as [[[e a''] g']|[a'' g']];
          now rewrite list_insert_insert_eq.
      * cbn [heap]. now rewrite list_lookup_insert_ne by congruence.
      * cbn [heap]. apply list_lookup_insert_eq. now apply lookup_lt_Some in Hncc.
Qed.

(** What a run of the update yields is a matter of the data, the labels, the
    previous centers, the number of clusters and the state of the sampler, and
    of nothing else in the world it runs in. *)
Lemma update_centroids_yield (X lc : loc) (mc : list Z) (w : world) (x c : DNDarray) :
  heap w !! X = Some x -> _cluster_centers (self w) = Some lc -> heap w !! lc = Some c ->
  yield (_update_centroids X mc w) =
  match clusters_result x c mc (seq 0 (n_clusters (self w))) (random_state w) with
  | inl (e, _, _) => inl e
  | inr (a', _) => inr (Some a')
  end.
Proof.
  intros HX Hlc Hc. unfold _update_centroids, get_self. unfold bind at 1. rewrite Hlc.
  unfold lift_option, ret at 1, bind at 1.
  rewrite (bind_returns _ _ _ _ _ (copy_returns _ _ _ Hc)).
  pose proof (lookup_lt_Some _ _ _ HX) as HXlt.
  unfold bind.
  rewrite (for_each_clusters_result X (length (heap w)) mc x _ (with_heap (heap w ++ [c]) w) c)
    by (cbn [heap with_heap];
        first [now apply lookup_app_l_Some | now rewrite lookup_app_r, Nat.sub_diag by lia | lia]).
  cbn [heap with_heap random_state self].
  destruct (clusters_result x c mc (seq 0 (n_clusters (self w))) (random_state w))
    as [[[e a'] g]|[a' g]]; [reflexivity|].
  unfold ret. cbn [yield heap].
  rewrite insert_app_r_alt, Nat.sub_diag by lia. cbn [insert list_insert].
  now rewrite lookup_app_r, Nat.sub_diag by lia.
Qed.

(** A pass over a cluster that keeps a row does not ask the sampler. *)
Lemma cluster_result_nonempty (x a : DNDarray) (mc : list Z) (i : nat) (g1 g2 : rng) :
  shape0 (balance_ (array_is_split x (local_clean x mc (Z.of_nat i)))) <> 0%nat ->
  match cluster_result x a mc i g1, cluster_result x a mc i g2 with
  | inl (e1, g1'), inl (e2, g2') => e1 = e2 /\ g1' = g1 /\ g2' = g2
  | inr (a1, g1'), inr (a2, g2') => a1 = a2 /\ g1' = g1 /\ g2' = g2
  | _, _ => False
  end.
Proof.
  intros Hne. unfold cluster_result.
  destruct (negb (length mc =? shape0 x)%nat); [auto|].
  destruct (Nat.eqb_spec (shape0 (balance_ (array_is_split x (local_clean x mc (Z.of_nat i)))))
              0) as [Hz|_]; [contradiction|].
  match goal with
  | |- context [fit_width (shape1 a) ?m] => destruct (fit_width (shape1 a) m) as [v|]
  end; auto.
Qed.

Lemma clusters_result_nonempty (x a : DNDarray) (mc : list Z) (clusters : list nat)
    (g1 g2 : rng) :
  Forall (fun i => shape0 (balance_ (array_is_split x (local_clean x mc (Z.of_nat i))))
                   <> 0%nat) clusters ->
  match clusters_result x a mc clusters g1, clusters_result x a mc clusters g2 with
  | inl (e1, _, _), inl (e2, _, _) => e1 = e2
  | inr (a1, _), inr (a2, _) => a1 = a2
  | _, _ => False
  end.
Proof.
  intros Hall. revert a. induction Hall as [|i clusters Hi _ IH]; intros a.
  - reflexivity.
  - cbn [clusters_result].
    pose proof (cluster_result_nonempty x a mc i g1 g2 Hi) as H.
    destruct (cluster_result x a mc i g1) as [[e1 g1']|[a1 g1']],
             (cluster_result x a mc i g2) as [[e2 g2']|[a2 g2']]; try contradiction.
    + now destruct H.
    + destruct H as (-> & -> & ->). apply IH.
Qed.

(** C2, amended: two runs of the update on the same data, labels and
    previous centers, for the same number of clusters, yield the same (the same
    centers, or the same exception) when the sampler is in the same state at
    both runs, or when every cluster keeps at least one row, in which case the
    sampler is not asked at all. Whatever else differs between the two worlds
    does not matter. *)
Theorem update_same_yield (X1 X2 lc1 lc2 : loc) (mc : list Z) (w1 w2 : world)
    (x c : DNDarray) :
  heap w1 !! X1 = Some x -> heap w2 !! X2 = Some x ->
  _cluster_centers (self w1) = Some lc1 -> heap w1 !! lc1 = Some c ->
  _cluster_centers (self w2) = Some lc2 -> heap w2 !! lc2 = Some c ->
  n_clusters (self w1) = n_clusters (self w2) ->
  random_state w1 = random_state w2 \/
  (forall i, (i < n_clusters (self w1))%nat ->
     shape0 (balance_ (array_is_split x (local_clean x mc (Z.of_nat i)))) <> 0%nat) ->
  yield (_update_centroids X1 mc w1) = yield (_update_centroids X2 mc w2).
Proof.
  intros HX1 HX2 Hlc1 Hc1 Hlc2 Hc2 HK Hcase.
  rewrite (update_centroids_yield X1 lc1 mc w1 x c HX1 Hlc1 Hc1).
  rewrite (update_centroids_yield X2 lc2 mc w2 x c HX2 Hlc2 Hc2).
  rewrite <- HK. destruct Hcase as [Hg|Hne]; [now rewrite Hg|].
  assert (Hall : Forall (fun i => shape0 (balance_ (array_is_split x
                                     (local_clean x mc (Z.of_nat i)))) <> 0%nat)
                        (seq 0 (n_clusters (self w1)))).
  { apply Forall_forall. intros i Hi. apply elem_of_seq in Hi. apply Hne. lia. }
  pose proof (clusters_result_nonempty x c mc _ (random_state w1) (random_state w2) Hall) as H.
  destruct (clusters_result x c mc (seq 0 (n_clusters (self w1))) (random_state w1))
    as [[[e1 a1] g1]|[a1 g1]],
    (clusters_result x c mc (seq 0 (n_clusters (self w1))) (random_state w2))
    as [[[e2 a2] g2]|[a2 g2]]; try contradiction; now subst.
Qed.

End Further.


(** * The claims on the concrete run *)

Module FixtureFacts.
Import TwoRanks.
Import Fixture.

Lemma sampler_ok : sampler_in_range.
Proof.
  intros low high g Hlt. cbn. unfold counter_draw. cbn [fst].
  pose proof (Z.mod_pos_bound (Z.of_nat g) (high - low)). lia.
Qed.

Lemma X_partitioned : partitioned X.
Proof. repeat split. Qed.

Lemma X_displs_agree : displs_agree X.
Proof. reflexivity. Qed.

Lemma X_rectangular : rectangular X.
Proof. repeat constructor. Qed.


End FixtureFacts.

Import TwoRanks.

Lemma masking_keeps_labelled_nonzero_rows_witness :
  garray (balance_ (array_is_split Edge.X_cancel
                      (local_clean Edge.X_cancel [0; 0; 1] (Z.of_nat 0))))
  = kept_rows (garray Edge.X_cancel) [0; 0; 1] (Z.of_nat 0) /\
  (forall r, In r (assigned_rows (garray Edge.X_cancel) [0; 0; 1] (Z.of_nat 0)) ->
             Exists (fun v => ~ v == 0)%Q r ->
             In r (garray (balance_ (array_is_split Edge.X_cancel
                                       (local_clean Edge.X_cancel [0; 0; 1] (Z.of_nat 0)))))) /\
  (forall r, Forall (fun v => v == 0)%Q r ->
             ~ In r (garray (balance_ (array_is_split Edge.X_cancel
                                         (local_clean Edge.X_cancel [0; 0; 1] (Z.of_nat 0)))))).
Proof.
  apply (masking_keeps_labelled_nonzero_rows Edge.X_cancel [0; 0; 1] 0).
  - right. repeat split.
  - reflexivity.
Defined.

Lemma empty_cluster_center_is_sampled_row_witness :
  exists l w' c' g s proc r,
    _update_centroids 0%nat Fixture.all_in_1 Fixture.w = Returns l w' /\
    heap w' !! l = Some c' /\
    s = fst (draw 0 (Z.of_nat (shape0 Fixture.X)) g) /\ 0 <= s < Z.of_nat (shape0 Fixture.X) /\
    find_proc (snd (counts_displs_shape (shape0 Fixture.X))) s (seq 0 comm_size) 0 = Some proc /\
    (proc < comm_size)%nat /\
    Bcast (xi_local Fixture.X (snd (counts_displs_shape (shape0 Fixture.X))) s proc) proc
      = Some r /\
    garray Fixture.X !! Z.to_nat s = Some r /\
    garray c' !! 0%nat = Some r.
Proof.
  apply (empty_cluster_center_is_sampled_row 0%nat 1%nat Fixture.all_in_1 Fixture.w
           Fixture.X Fixture.centers 0%nat).
  - exact FixtureFacts.sampler_ok.
  - reflexivity.
  - reflexivity.
  - reflexivity.
  - exact FixtureFacts.X_partitioned.
  - exact FixtureFacts.X_displs_agree.
  - exact FixtureFacts.X_rectangular.
  - vm_compute. lia.
  - reflexivity.
  - vm_compute. lia.
  - reflexivity.
  - vm_compute. lia.
  - reflexivity.
Defined.

(** C2 as stated fails: with a sampler that keeps to its range, two runs of
    the update, one after the other, on the same data and the same labels, with
    cluster 0 empty: the first returns the centers [[5]; [7]], the second
    [[7]; [7]]. *)
Lemma update_twice_differs :
  sampler_in_range /\
  exists l1 w1 a1 l2 w2 a2,
    _update_centroids 0%nat Fixture.all_in_1 Fixture.w = Returns l1 w1 /\
    heap w1 !! l1 = Some a1 /\
    _update_centroids 0%nat Fixture.all_in_1 w1 = Returns l2 w2 /\
    heap w2 !! l2 = Some a2 /\
    garray a1 = [[5%Q]; [7%Q]] /\ garray a2 = [[7%Q]; [7%Q]] /\
    garray a1 <> garray a2.
Proof.
  split; [exact FixtureFacts.sampler_ok|].
  eexists _, _, _, _, _, _.
  split; [vm_compute; reflexivity|]. split; [vm_compute; reflexivity|].
  split; [vm_compute; reflexivity|]. split; [vm_compute; reflexivity|].
  split; [reflexivity|]. split; [reflexivity|]. discriminate.
Qed.

Lemma update_same_yield_witness :
  yield (_update_centroids 0%nat Fixture.two_and_two Fixture.w)
  = yield (_update_centroids 0%nat Fixture.two_and_two Fixture.w_later).
Proof.
  apply (update_same_yield 0%nat 0%nat 1%nat 1%nat Fixture.two_and_two Fixture.w
           Fixture.w_later Fixture.X Fixture.centers).
  - reflexivity.
  - reflexivity.
  - reflexivity.
  - reflexivity.
  - reflexivity.
  - reflexivity.
  - reflexivity.
  - right. intros i Hi. destruct i as [|[|i]]; [discriminate|discriminate|].
    vm_compute in Hi. lia.
Defined.

(** Both runs return, with the medians [5] and [16/2]. *)
Example update_same_yield_centers :
  exists a, yield (_update_centroids 0%nat Fixture.two_and_two Fixture.w) = inr (Some a) /\
            garray a = [[5%Q]; [(16 # 2)%Q]].
Proof. eexists. split; [vm_compute; reflexivity|reflexivity]. Qed.

(** C1 fails on the code: the data is split over the two ranks as one row
    and three, while the communicator's table of first row indices, made from
    the number of rows alone (line 63), is [0; 2]. With every row in cluster 1,
    cluster 0 is empty. When the sampler draws 2, rank 1 reads its local row
    2 - 2 = 0, which is row 1 of the data, [5], and that becomes the center,
    not row 2, [7]. When the sampler draws 1, rank 0 reads its local row 1,
    which it does not have, and the update raises IndexError. *)
Theorem failsafe_on_uneven_split_misses_the_sampled_row :
  partitioned Edge.X_uneven /\
  snd (counts_displs_shape (shape0 Edge.X_uneven)) = [0; 2] /\
  fst (draw 0 (Z.of_nat (shape0 Edge.X_uneven)) (random_state Edge.w_uneven_2)) = 2 /\
  garray Edge.X_uneven !! 2%nat = Some [7%Q] /\
  (exists l w' c',
     _update_centroids 0%nat Fixture.all_in_1 Edge.w_uneven_2 = Returns l w' /\
     heap w' !! l = Some c' /\ garray c' !! 0%nat = Some [5%Q]) /\
  fst (draw 0 (Z.of_nat (shape0 Edge.X_uneven)) (random_state Edge.w_uneven)) = 1 /\
  (exists w', _update_centroids 0%nat Fixture.all_in_1 Edge.w_uneven = Raises IndexError w').
Proof.
  split; [repeat split|]. split; [reflexivity|]. split; [reflexivity|].
  split; [reflexivity|]. split.
  - eexists _, _, _. split; [vm_compute; reflexivity|]. split; reflexivity.
  - split; [reflexivity|]. eexists. vm_compute. reflexivity.
Qed.

(** C4 fails on the code: the labels put the zero row, and no other row, in
    cluster 0, and the update gives cluster 0 the center [5], the row that the
    sampler has picked, because the masking has discarded the zero row. *)
Theorem singleton_cluster_of_zero_row_gets_sampled_row :
  assigned_rows (garray Fixture.X) Fixture.zero_row_alone 0 = [[0%Q]] /\
  nearest_center Fixture.X Fixture.centers = Fixture.zero_row_alone /\
  exists l w' c',
    _update_centroids 0%nat Fixture.zero_row_alone Fixture.w = Returns l w' /\
    heap w' !! l = Some c' /\
    garray c' !! 0%nat = Some [5%Q].
Proof.
  split; [reflexivity|]. split; [reflexivity|].
  eexists _, _, _. split; [vm_compute; reflexivity|]. split; reflexivity.
Qed.

(** On this run the third of ten passes meets the tolerance and is the last. *)
Example fit_stops_at_the_third_pass :
  exists w', fit (PyDND 0%nat) Edge.w_long = Returns tt w' /\
             _n_iter (self w') = 3 /\ inertia_within_tol (self w').
Proof.
  eexists. split; [vm_compute; reflexivity|]. split; [reflexivity|].
  eexists _, _. split; [reflexivity|]. split; [reflexivity|]. vm_compute. discriminate.
Qed.


Lemma inertia_is_squared_center_shift_witness :
  exists r w',
    fit_pass 0%nat Fixture.w = Returns r w' /\
    exists lnew w2 new q lc',
      _update_centroids 0%nat (fst r)
        (with_self (set_n_iter (_n_iter (self Fixture.w) + 1) (self Fixture.w)) Fixture.w)
        = Returns lnew w2 /\
      heap w2 !! lnew = Some new /\ heap w2 !! 1%nat = Some Fixture.centers /\
      _inertia (self w') = Some q /\
      (q == inertia_sum (shape0 Fixture.centers) (shape1 Fixture.centers)
              (garray Fixture.centers) (garray new))%Q /\
      snd r = match tol (self w') with Some t => Qle_bool q t | None => false end /\
      _cluster_centers (self w') = Some lc' /\ heap w' !! lc' = Some new.
Proof.
  eexists _, _. split; [vm_compute; reflexivity|].
  apply (inertia_is_squared_center_shift 0%nat 1%nat Fixture.w).
  - vm_compute. reflexivity.
  - reflexivity.
  - reflexivity.
  - repeat constructor.
Defined.

Lemma objects_are_never_mutated_witness :
  heap (final_world (fit (PyDND 0%nat) Fixture.w)) !! 1%nat = Some Fixture.centers /\
  heap (final_world (_update_centroids 0%nat Fixture.zero_row_alone Fixture.w)) !! 1%nat
    = Some Fixture.centers /\
  forall l' w', _update_centroids 0%nat Fixture.zero_row_alone Fixture.w = Returns l' w' ->
    l' <> 1%nat /\ heap Fixture.w !! l' = None /\ is_Some (heap w' !! l') /\
    self w' = self Fixture.w.
Proof.
  apply (objects_are_never_mutated (PyDND 0%nat) 0%nat Fixture.zero_row_alone Fixture.w
           1%nat Fixture.centers).
  reflexivity.
Defined.


Lemma fit_without_passes_witness :
  exists w',
    fit (PyDND 0%nat) Fixture.w_no_pass = Returns tt w' /\
    _n_iter (self w') = 0 /\
    _labels (self w') = Some (replicate (shape0 Fixture.X) 0) /\
    heap w' = heap (loop_entry Fixture.X Fixture.w_no_pass) /\
    random_state w' = random_state (loop_entry Fixture.X Fixture.w_no_pass) /\
    _cluster_centers (self w') = Some (length (heap Fixture.w_no_pass)) /\
    _inertia (self w') = _inertia (self Fixture.w_no_pass).
Proof.
  apply (fit_without_passes 0%nat Fixture.w_no_pass Fixture.X); reflexivity.
Defined.

(** * The further properties on concrete runs *)

Lemma masking_discards_only_rows_of_zeros_witness :
  garray (balance_ (array_is_split Edge.X_cancel
                      (local_clean Edge.X_cancel [0; 0; 1] (Z.of_nat 0))))
  = List.filter (fun r => negb (all_zero r))
      (assigned_rows (garray Edge.X_cancel) [0; 0; 1] (Z.of_nat 0)).
Proof.
  apply (masking_discards_only_rows_of_zeros Edge.X_cancel [0; 0; 1] 0).
  - right. repeat split.
  - reflexivity.
Defined.

Lemma nonempty_cluster_center_is_median_witness :
  exists l w' c',
    _update_centroids 0%nat Fixture.zero_row_alone Fixture.w = Returns l w' /\
    heap w' !! l = Some c' /\
    garray c' !! 1%nat
    = Some (median_axis0 (shape1 Fixture.X)
              (surviving_rows (garray Fixture.X) Fixture.zero_row_alone (Z.of_nat 1))).
Proof.
  apply (nonempty_cluster_center_is_median 0%nat 1%nat Fixture.zero_row_alone Fixture.w
           Fixture.X Fixture.centers 1%nat).
  - exact FixtureFacts.sampler_ok.
  - reflexivity.
  - reflexivity.
  - reflexivity.
  - exact FixtureFacts.X_partitioned.
  - exact FixtureFacts.X_displs_agree.
  - exact FixtureFacts.X_rectangular.
  - vm_compute. lia.
  - reflexivity.
  - vm_compute. lia.
  - reflexivity.
  - vm_compute. lia.
  - vm_compute. discriminate.
Defined.

Lemma update_draws_once_per_empty_cluster_witness :
  exists l w',
    _update_centroids 0%nat Fixture.all_in_1 Fixture.w = Returns l w' /\
    random_state w'
    = Nat.iter (empty_count (garray Fixture.X) Fixture.all_in_1 (n_clusters (self Fixture.w)))
               (advance (shape0 Fixture.X)) (random_state Fixture.w).
Proof.
  apply (update_draws_once_per_empty_cluster 0%nat 1%nat Fixture.all_in_1 Fixture.w
           Fixture.X Fixture.centers).
  - exact FixtureFacts.sampler_ok.
  - reflexivity.
  - reflexivity.
  - reflexivity.
  - exact FixtureFacts.X_partitioned.
  - exact FixtureFacts.X_displs_agree.
  - exact FixtureFacts.X_rectangular.
  - vm_compute. lia.
  - reflexivity.
  - vm_compute. lia.
  - reflexivity.
Defined.

Lemma rows_beyond_n_clusters_are_kept_witness :
  exists l w' c',
    _update_centroids 0%nat Fixture.two_and_two Edge.w_three = Returns l w' /\
    heap w' !! l = Some c' /\
    shape0 c' = shape0 Edge.centers3 /\
    forall j, (n_clusters (self Edge.w_three) <= j)%nat ->
              garray c' !! j = garray Edge.centers3 !! j.
Proof.
  apply (rows_beyond_n_clusters_are_kept 0%nat 1%nat Fixture.two_and_two Edge.w_three
           Fixture.X Edge.centers3).
  - exact FixtureFacts.sampler_ok.
  - reflexivity.
  - reflexivity.
  - reflexivity.
  - exact FixtureFacts.X_partitioned.
  - exact FixtureFacts.X_displs_agree.
  - exact FixtureFacts.X_rectangular.
  - vm_compute. lia.
  - reflexivity.
  - vm_compute. lia.
  - reflexivity.
Defined.


Lemma fit_without_tolerance_runs_max_iter_passes_witness :
  exists w',
    fit (PyDND 0%nat) Edge.w_negative_tol = Returns tt w' /\
    _n_iter (self w') = max_iter (self Edge.w_negative_tol).
Proof.
  eexists. split; [vm_compute; reflexivity|].
  apply (fit_without_tolerance_runs_max_iter_passes 0%nat Edge.w_negative_tol _ Fixture.X).
  - reflexivity.
  - vm_compute. discriminate.
  - reflexivity.
  - vm_compute. reflexivity.
Defined.

Lemma fit_runs_at_least_one_pass_witness :
  1 <= _n_iter (self (final_world (fit (PyDND 0%nat) Fixture.w_fresh))).
Proof.
  apply (fit_runs_at_least_one_pass 0%nat Fixture.w_fresh Fixture.X).
  - reflexivity.
  - vm_compute. discriminate.
Defined.

(** On this run the update returns the centers [5] and [16/2] for the
    previous [5] and [8]: the inertia is zero and the pass ends in [break]. *)
Example pass_at_a_fixed_point :
  exists r w' q,
    fit_pass 0%nat Edge.w_fixed = Returns r w' /\ snd r = true /\
    _inertia (self w') = Some q /\ (q == 0)%Q /\
    forall i j, (i < 2)%nat -> (j < 1)%nat ->
      (entry (garray Edge.centers_fixed) i j == entry [[5%Q]; [(16 # 2)%Q]] i j)%Q.
Proof.
  eexists _, _, _. split; [vm_compute; reflexivity|]. split; [reflexivity|].
  split; [reflexivity|]. split; [reflexivity|].
  intros i j Hi Hj. destruct i as [|[|i]], j as [|j]; try lia; reflexivity.
Qed.

Lemma unchanged_centers_end_the_loop_witness :
  exists r w',
    fit_pass 0%nat Edge.w_fixed = Returns r w' /\
    exists q lc' new,
      _inertia (self w') = Some q /\
      _cluster_centers (self w') = Some lc' /\ heap w' !! lc' = Some new /\
      shape0 new = shape0 Edge.centers_fixed /\ shape1 new = shape1 Edge.centers_fixed /\
      ((forall i j, (i < shape0 Edge.centers_fixed)%nat -> (j < shape1 Edge.centers_fixed)%nat ->
                    entry (garray Edge.centers_fixed) i j == entry (garray new) i j)%Q ->
       (q == 0)%Q /\
       forall t, tol (self Edge.w_fixed) = Some t -> (0 <= t)%Q -> snd r = true).
Proof.
  eexists _, _. split; [vm_compute; reflexivity|].
  apply (unchanged_centers_end_the_loop 0%nat 1%nat Edge.w_fixed).
  - vm_compute. reflexivity.
  - reflexivity.
  - reflexivity.
  - repeat constructor.
Defined.

Lemma failsafe_row_on_replicated_data_witness :
  exists proc d r,
    find_proc (snd (counts_displs_shape (shape0 Edge.X_replicated)))
      (fst (draw 0 (Z.of_nat (shape0 Edge.X_replicated)) (random_state Edge.w_replicated)))
      (seq 0 comm_size) 0 = Some proc /\
    snd (counts_displs_shape (shape0 Edge.X_replicated)) !! proc = Some d /\
    0 <= d <= fst (draw 0 (Z.of_nat (shape0 Edge.X_replicated))
                     (random_state Edge.w_replicated)) /\
    garray Edge.X_replicated
      !! Z.to_nat (fst (draw 0 (Z.of_nat (shape0 Edge.X_replicated))
                          (random_state Edge.w_replicated)) - d) = Some r /\
    update_cluster 0%nat Fixture.all_in_1 1%nat 0%nat Edge.w_replicated =
    Returns tt
      (mkWorld (<[1%nat := with_garray Fixture.centers (<[0%nat := r]> (garray Fixture.centers))]>
                  (heap Edge.w_replicated))
               (snd (draw 0 (Z.of_nat (shape0 Edge.X_replicated))
                       (random_state Edge.w_replicated)))
               (self Edge.w_replicated)).
Proof.
  apply (failsafe_row_on_replicated_data 0%nat 1%nat Fixture.all_in_1 0%nat Edge.w_replicated
           Edge.X_replicated Fixture.centers [2%nat; 2%nat]).
  - exact FixtureFacts.sampler_ok.
  - reflexivity.
  - reflexivity.
  - reflexivity.
  - repeat constructor.
  - vm_compute. lia.
  - reflexivity.
  - vm_compute. lia.
  - reflexivity.
  - reflexivity.
  - reflexivity.
  - vm_compute. lia.
  - reflexivity.
Defined.

Lemma update_is_layout_independent_witness :
  exists l1 w1' a1 l2 w2' a2,
    _update_centroids 0%nat Fixture.two_and_two Fixture.w = Returns l1 w1' /\
    heap w1' !! l1 = Some a1 /\
    _update_centroids 0%nat Fixture.two_and_two Edge.w_uneven = Returns l2 w2' /\
    heap w2' !! l2 = Some a2 /\
    garray a1 = map (fun i => median_axis0 (shape1 Fixture.X)
                                (surviving_rows (garray Fixture.X) Fixture.two_and_two
                                   (Z.of_nat i)))
                    (seq 0 (n_clusters (self Fixture.w))) /\
    garray a2 = garray a1 /\
    random_state w1' = random_state Fixture.w /\
    random_state w2' = random_state Edge.w_uneven.
Proof.
  apply (update_is_layout_independent 0%nat 0%nat 1%nat 1%nat Fixture.two_and_two
           Fixture.w Edge.w_uneven Fixture.X Edge.X_uneven Fixture.centers Fixture.centers).
  - reflexivity.
  - reflexivity.
  - reflexivity.
  - reflexivity.
  - right. exact FixtureFacts.X_partitioned.
  - right. repeat split.
  - reflexivity.
  - reflexivity.
  - reflexivity.
  - reflexivity.
  - reflexivity.
  - reflexivity.
  - reflexivity.
  - reflexivity.
  - reflexivity.
  - reflexivity.
  - intros i Hi. destruct i as [|[|i]]; [discriminate|discriminate|].
    vm_compute in Hi. lia.
Defined.
